(** * ElyasTimeApk: the timetable store of [App.tsx]

    A shallow embedding of the reducer layer of [src/App.tsx] (the
    undo/redo history, the application reducer and the initial-state
    loader), together with models of the three helpers that [App.tsx]
    imports from [./utils] and that are described in the design document:
    the time grid calculator, the optimizer and the state reconciler.
    It also covers the values that the context provides ([canUndo],
    [canRedo]), the colour helpers of the theme effect, the toast list, and
    the reducer and initializer of the project store, the second [App.tsx]
    that the file holds.

    Conventions:
    - a JS number is a [Z] (the program only uses integers here);
    - a JS object used as a dictionary (the schedule) is a [gmap string _];
    - a JS object that is only copied and patched with the spread operator
      (design, ui, printDesign) is an association list of JSON values;
    - a JS function that may throw returns a [Result];
    - [newPresent === present] is reference identity: [appReducer] reports
      with [Unchanged] that it returned the very object it was given;
    - a state is a value of the declared type: every entry of the schedule
      is a lesson. [MOVE_LESSON] leaves that type when one of its keys names
      a member of [Object.prototype]; the reducers cover it for the other
      keys, and [moveLesson] gives the case body on the object itself, for
      every key. *)

From stdpp Require Import gmap strings list fin_maps pretty.
From Stdlib Require Import ZArith Lia Ascii.

(** ** Exceptions *)

Inductive Result (A : Type) : Type :=
| Ok (a : A)
| Throw (e : string).
Arguments Ok {A} a.
Arguments Throw {A} e.

#[global] Instance Result_ret : MRet Result := fun A a => Ok a.
#[global] Instance Result_bind : MBind Result := fun A B f m =>
  match m with
  | Ok a => f a
  | Throw e => Throw e
  end.

(** [try { body } catch (e) { handler(e) }] *)
Definition try_catch {A} (body : Result A) (handler : string -> Result A) : Result A :=
  match body with
  | Ok a => Ok a
  | Throw e => handler e
  end.

(** ** JSON values (what [JSON.parse] produces and [any] ranges over) *)

#[local] Unset Elimination Schemes.
Inductive Json : Type :=
| JNull
| JBool (b : bool)
| JNum (n : Z)
| JStr (s : string)
| JArr (items : list Json)
| JObj (fields : list (string * Json)).
#[local] Set Elimination Schemes.

Abbreviation Obj := (list (string * Json)).

(** [o[k]] on an object: the value of the first field named [k]. *)
Fixpoint assoc {A} (k : string) (o : list (string * A)) : option A :=
  match o with
  | [] => None
  | (k', v) :: rest => if decide (k' = k) then Some v else assoc k rest
  end.

Definition has_key {A} (k : string) (o : list (string * A)) : bool :=
  match assoc k o with Some _ => true | None => false end.

(** [{ ...a, ...b }]: the fields of [a] in their order, overridden by those
    of [b], followed by the fields that only [b] has. *)
Definition spread (a b : Obj) : Obj :=
  map (fun kv => (kv.1, default kv.2 (assoc kv.1 b))) a
  ++ filter (fun kv => has_key kv.1 a = false) b.

(** ** The data model of [./types] as [App.tsx] uses it *)

Record Teacher := mkTeacher {
  teacher_id : string;
  teacher_name : string;
  teacher_color : string
}.

Record ClassGroup := mkClassGroup {
  class_id : string;
  class_name : string
}.

Record LessonData := mkLesson {
  teacherId : string;
  subject : string
}.

Abbreviation Schedule := (gmap string LessonData).

Record TimeSettings := mkTimeSettings {
  lessonDuration : Z;
  breakDuration : Z;
  lessonsBeforeBreak : Z;
  startTime : string;
  totalLessons : Z
}.

(** [Partial<TimeSettings>] *)
Record PartialTimeSettings := mkPartialTimeSettings {
  p_lessonDuration : option Z;
  p_breakDuration : option Z;
  p_lessonsBeforeBreak : option Z;
  p_startTime : option string;
  p_totalLessons : option Z
}.

Record TimeSlot := mkTimeSlot {
  index : nat;
  isBreak : bool;
  slotStart : Z;
  slotEnd : Z
}.

Record AppState := mkAppState {
  teachers : list Teacher;
  classes : list ClassGroup;
  schedule : Schedule;
  settings : TimeSettings;
  design : Obj;
  ui : Obj;
  printDesign : Obj
}.

(** [{ ...state, field: v }] for each field that the reducers replace. *)
Definition with_teachers (s : AppState) (v : list Teacher) : AppState :=
  mkAppState v (classes s) (schedule s) (settings s) (design s) (ui s) (printDesign s).
Definition with_classes (s : AppState) (v : list ClassGroup) : AppState :=
  mkAppState (teachers s) v (schedule s) (settings s) (design s) (ui s) (printDesign s).
Definition with_schedule (s : AppState) (v : Schedule) : AppState :=
  mkAppState (teachers s) (classes s) v (settings s) (design s) (ui s) (printDesign s).
Definition with_settings (s : AppState) (v : TimeSettings) : AppState :=
  mkAppState (teachers s) (classes s) (schedule s) v (design s) (ui s) (printDesign s).
Definition with_design (s : AppState) (v : Obj) : AppState :=
  mkAppState (teachers s) (classes s) (schedule s) (settings s) v (ui s) (printDesign s).
Definition with_ui (s : AppState) (v : Obj) : AppState :=
  mkAppState (teachers s) (classes s) (schedule s) (settings s) (design s) v (printDesign s).
Definition with_printDesign (s : AppState) (v : Obj) : AppState :=
  mkAppState (teachers s) (classes s) (schedule s) (settings s) (design s) (ui s) v.

(** [{ ...state.settings, ...action.payload }] *)
Definition patch_settings (s : TimeSettings) (p : PartialTimeSettings) : TimeSettings :=
  mkTimeSettings
    (default (lessonDuration s) (p_lessonDuration p))
    (default (breakDuration s) (p_breakDuration p))
    (default (lessonsBeforeBreak s) (p_lessonsBeforeBreak p))
    (default (startTime s) (p_startTime p))
    (default (totalLessons s) (p_totalLessons p)).

(** ** Property names that every object inherits *)

(** The members of [Object.prototype] (ECMAScript, annex B included). A
    read [o[k]] of a plain object finds them when [o] has no own property
    [k]. *)
Definition objectPrototype : list string :=
  ["constructor"; "hasOwnProperty"; "isPrototypeOf"; "propertyIsEnumerable";
   "toLocaleString"; "toString"; "valueOf"; "__proto__";
   "__defineGetter__"; "__defineSetter__"; "__lookupGetter__"; "__lookupSetter__"].

Definition inherited (k : string) : bool := existsb (String.eqb k) objectPrototype.

(** Neither key of a move names a member of [Object.prototype]: both are
    looked up among the own properties of the schedule only. *)
Definition own_keys (fromKey toKey : string) : Prop :=
  inherited fromKey = false ∧ inherited toKey = false.

(** The actions. [MOVE_LESSON] carries the evidence that its keys are
    [own_keys]: with another key the code takes an inherited member for a
    lesson and builds a state that is no [AppState] (see [moveLesson]). *)
Inductive Action : Type :=
| INIT (payload : Json)
| UNDO
| REDO
| ADD_TEACHER (payload : Teacher)
| UPDATE_TEACHER (payload : Teacher)
| DELETE_TEACHER (payload : string)
| ADD_CLASS (payload : ClassGroup)
| UPDATE_CLASS (payload : ClassGroup)
| DELETE_CLASS (payload : string)
| UPDATE_SETTINGS (payload : PartialTimeSettings)
| UPDATE_DESIGN (payload : Obj)
| UPDATE_PRINT_DESIGN (payload : Obj)
| UPDATE_UI (payload : Obj)
| SET_LESSON (key : string) (data : option LessonData)
| MOVE_LESSON (fromKey toKey : string) (ordinary : own_keys fromKey toKey)
| OPTIMIZE_SCHEDULE
| REPLACE_SCHEDULE (payload : Schedule)
| RESET_PROJECT.

Definition HISTORY_LIMIT : nat := 100.

(** [HistoryState], with the type of [present] left open: [initData] and
    [INIT] store whatever [deepMerge] hands back, which TypeScript types as
    [any]. *)
Record History (St : Type) := mkHistory {
  past : list Schedule;
  present : St;
  future : list Schedule
}.
Arguments mkHistory {St} _ _ _.
Arguments past {St} _.
Arguments present {St} _.
Arguments future {St} _.

Abbreviation HistoryState := (History AppState).

(** ** What [App.tsx] imports and [src/] does not contain

    [COLORS] comes from [./types]; the three functions come from [./utils].
    The reducer is written against this interface; each function may throw. *)
Class Imports := {
  COLORS : nat -> string;
  calculateTimeSlots : TimeSettings -> Result (list TimeSlot);
  runOptimization : Schedule -> list ClassGroup -> list TimeSlot -> Result Schedule;
  deepMerge : AppState -> Json -> Result AppState
}.

(** ** [appReducer] *)

(** What [appReducer] hands back: the object it was given ([return state]),
    or a newly built one. *)
Inductive Step : Type :=
| Unchanged
| Changed (s : AppState).

Definition step_state (old : AppState) (st : Step) : AppState :=
  match st with
  | Unchanged => old
  | Changed s => s
  end.

(** [Object.keys(o).forEach(k => { if (test(k, o[k])) delete o[k]; })] on a
    copy [o] of the schedule. *)
Definition delete_each (test : string -> LessonData -> bool) (o : Schedule) : Schedule :=
  foldl (fun acc k =>
           match acc !! k with
           | Some l => if test k l then delete k acc else acc
           | None => acc
           end) o (map fst (map_to_list o)).

Definition teaches (t : string) (_ : string) (l : LessonData) : bool :=
  bool_decide (teacherId l = t).

(** [k.startsWith(`${c}_`)] *)
Definition under_class (c : string) (k : string) (_ : LessonData) : bool :=
  String.prefix (c +:+ "_") k.

(** ** The [MOVE_LESSON] case on the schedule object itself *)

(** What a read of the schedule object can yield: a lesson, or the member
    of [Object.prototype] of that name ([Object.prototype] itself for
    [__proto__]); all of them are truthy. *)
Inductive Cell : Type :=
| Lesson (l : LessonData)
| Member (name : string).

(** A plain object: its own properties, and its prototype when that is no
    longer [Object.prototype]. *)
Record ScheduleObject := mkObject {
  obj_own : gmap string Cell;
  obj_proto : option Cell
}.

(** [{ ...schedule }] *)
Definition objectOf (sched : Schedule) : ScheduleObject :=
  mkObject (Lesson <$> sched) None.

(** [o[k]], the prototype of [o] being [Object.prototype]: the own
    property, else the inherited member, else [undefined]. *)
Definition readProperty (o : ScheduleObject) (k : string) : option Cell :=
  match obj_own o !! k with
  | Some c => Some c
  | None => if inherited k then Some (Member k) else None
  end.

(** [o[k] = v]: an own property is written or created, but for
    [__proto__] when [o] has no own property of that name: the inherited
    setter then makes [v] the prototype of [o] ([v] is an object). *)
Definition writeProperty (o : ScheduleObject) (k : string) (v : Cell) : ScheduleObject :=
  match obj_own o !! k with
  | None =>
      if String.eqb k "__proto__"
      then mkObject (obj_own o)
             (match v with
              | Member "__proto__" => None
              | _ => Some v
              end)
      else mkObject (<[k := v]> (obj_own o)) (obj_proto o)
  | Some _ => mkObject (<[k := v]> (obj_own o)) (obj_proto o)
  end.

(** [delete o[k]] *)
Definition deleteProperty (o : ScheduleObject) (k : string) : ScheduleObject :=
  mkObject (delete k (obj_own o)) (obj_proto o).

(** The body of the [MOVE_LESSON] case, for any two keys: [None] for
    [return state], else the object that becomes the schedule of the new
    state. *)
Definition moveLesson (sched : Schedule) (fromKey toKey : string) : option ScheduleObject :=
  let schedCopy := objectOf sched in
  let itemToMove := readProperty schedCopy fromKey in
  let itemAtTarget := readProperty schedCopy toKey in
  match itemToMove with
  | None => None
  | Some item =>
      let placed := writeProperty schedCopy toKey item in
      Some (match itemAtTarget with
            | Some other => writeProperty placed fromKey other
            | None => deleteProperty placed fromKey
            end)
  end.

Section Reducer.
Context `{imports : Imports}.

Definition DEFAULT_STATE : AppState := {|
  teachers := [ mkTeacher "t1" "ښوونکی ۱" (COLORS 6);
                mkTeacher "t2" "ښوونکی ۲" (COLORS 10) ];
  classes := [ mkClassGroup "c1" "۱ ټولګی"; mkClassGroup "c2" "۲ ټولګی" ];
  schedule := ∅;
  settings := mkTimeSettings 45 15 2 "08:00" 6;
  design := [
    ("lesson", JObj [ ("borderColor", JStr "#cbd5e1"); ("backgroundColor", JStr "#ffffff");
                      ("borderWidth", JNum 1); ("borderRadius", JNum 8); ("margin", JNum 4);
                      ("borderStyle", JStr "solid"); ("shadow", JStr "none");
                      ("fontSize", JNum 13) ]);
    ("break", JObj [ ("borderColor", JStr "#e2e8f0"); ("backgroundColor", JStr "#f8fafc");
                     ("borderWidth", JNum 0); ("borderRadius", JNum 8); ("margin", JNum 4);
                     ("borderStyle", JStr "none"); ("shadow", JStr "inner") ]) ];
  ui := [ ("theme", JStr "system"); ("primaryColor", JStr "#6366f1"); ("language", JStr "ps") ];
  printDesign := [
    ("title", JStr "د مدرسې اونیز مهال ویش");
    ("subtitle", JStr "ښوونیز کال ۱۴۰۳-۱۴۰۴");
    ("footerText", JStr "د مدرسې اداره");
    ("watermarkText", JStr "مسوده");
    ("showLegend", JBool true); ("showTeacherName", JBool true); ("showTimes", JBool true);
    ("showFooter", JBool true); ("showWatermark", JBool false);
    ("scale", JNum 100); ("paddingX", JNum 40); ("paddingY", JNum 40);
    ("direction", JStr "rtl");
    ("theme", JStr "classic"); ("primaryColor", JStr "#1e293b");
    ("headerStyle", JStr "solid"); ("fontStyle", JStr "normal");
    ("fontSizeTitle", JNum 32); ("fontSizeSubtitle", JNum 18); ("fontSizeHeader", JNum 14);
    ("fontSizeSubject", JNum 14); ("fontSizeTeacher", JNum 11);
    ("teacherDisplayMode", JStr "badge"); ("cellMinHeight", JNum 90);
    ("cellVerticalAlign", JStr "center"); ("cellGap", JNum 6); ("cellPadding", JNum 4) ]
|}.

Definition appReducer (state : AppState) (action : Action) : Result Step :=
  match action with
  | ADD_TEACHER payload =>
      Ok (Changed (with_teachers state (teachers state ++ [payload])))
  | UPDATE_TEACHER payload =>
      Ok (Changed (with_teachers state
            (map (fun t => if decide (teacher_id t = teacher_id payload) then payload else t)
                 (teachers state))))
  | DELETE_TEACHER payload =>
      let newSchedT := delete_each (teaches payload) (schedule state) in
      Ok (Changed (with_schedule
            (with_teachers state
               (filter (fun t => teacher_id t ≠ payload) (teachers state)))
            newSchedT))
  | ADD_CLASS payload =>
      Ok (Changed (with_classes state (classes state ++ [payload])))
  | UPDATE_CLASS payload =>
      Ok (Changed (with_classes state
            (map (fun c => if decide (class_id c = class_id payload) then payload else c)
                 (classes state))))
  | DELETE_CLASS payload =>
      let newSchedC := delete_each (under_class payload) (schedule state) in
      Ok (Changed (with_schedule
            (with_classes state
               (filter (fun c => class_id c ≠ payload) (classes state)))
            newSchedC))
  | UPDATE_SETTINGS payload =>
      Ok (Changed (with_settings state (patch_settings (settings state) payload)))
  | UPDATE_DESIGN payload =>
      Ok (Changed (with_design state (spread (design state) payload)))
  | UPDATE_PRINT_DESIGN payload =>
      Ok (Changed (with_printDesign state (spread (printDesign state) payload)))
  | UPDATE_UI payload =>
      Ok (Changed (with_ui state (spread (ui state) payload)))
  | SET_LESSON key data =>
      let newSchedule :=
        match data with
        | None => delete key (schedule state)
        | Some d => <[key := d]> (schedule state)
        end in
      Ok (Changed (with_schedule state newSchedule))
  | MOVE_LESSON fromKey toKey _ =>
      let schedCopy := schedule state in
      let itemToMove := schedCopy !! fromKey in
      let itemAtTarget := schedCopy !! toKey in
      match itemToMove with
      | None => Ok Unchanged
      | Some item =>
          let placed := <[toKey := item]> schedCopy in
          Ok (Changed (with_schedule state
                match itemAtTarget with
                | Some other => <[fromKey := other]> placed
                | None => delete fromKey placed
                end))
      end
  | OPTIMIZE_SCHEDULE =>
      slots ← calculateTimeSlots (settings state);
      optimizedSchedule ← runOptimization (schedule state) (classes state) slots;
      Ok (Changed (with_schedule state optimizedSchedule))
  | REPLACE_SCHEDULE payload =>
      Ok (Changed (with_schedule state payload))
  | INIT _ | UNDO | REDO | RESET_PROJECT => Ok Unchanged
  end.

(** ** [reducer] *)

(** [['SET_LESSON', 'MOVE_LESSON', 'REPLACE_SCHEDULE', 'OPTIMIZE_SCHEDULE'].includes(action.type)] *)
Definition isUndoable (action : Action) : bool :=
  match action with
  | SET_LESSON _ _ | MOVE_LESSON _ _ _ | REPLACE_SCHEDULE _ | OPTIMIZE_SCHEDULE => true
  | _ => false
  end.

(** [const updatedPast = [...past, s]; if (updatedPast.length > HISTORY_LIMIT) updatedPast.shift();] *)
Definition push_past (past : list Schedule) (s : Schedule) : list Schedule :=
  let updatedPast := past ++ [s] in
  if decide (HISTORY_LIMIT < length updatedPast) then drop 1 updatedPast else updatedPast.

Definition reducer (state : HistoryState) (action : Action) : Result HistoryState :=
  let past := past state in
  let present := present state in
  let future := future state in
  match action with
  | INIT payload =>
      safeState ← deepMerge DEFAULT_STATE payload;
      Ok (mkHistory [] safeState [])
  | RESET_PROJECT =>
      Ok (mkHistory []
            (with_ui (with_schedule (with_classes (with_teachers DEFAULT_STATE []) []) ∅)
               (ui present))
            [])
  | UNDO =>
      match last past with
      | None => Ok state
      | Some prevSchedule =>
          Ok (mkHistory (take (length past - 1) past)
                (with_schedule present prevSchedule)
                (schedule present :: future))
      end
  | REDO =>
      match future with
      | [] => Ok state
      | nextSchedule :: rest =>
          Ok (mkHistory (past ++ [schedule present])
                (with_schedule present nextSchedule)
                rest)
      end
  | _ =>
      step ← appReducer present action;
      match step with
      | Unchanged => Ok state
      | Changed newPresent =>
          if isUndoable action
          then Ok (mkHistory (push_past past (schedule present)) newPresent [])
          else Ok (mkHistory past newPresent future)
      end
  end.

(** Dispatching a sequence of actions, one after the other. *)
Fixpoint dispatch_all (state : HistoryState) (actions : list Action) : Result HistoryState :=
  match actions with
  | [] => Ok state
  | a :: rest => state' ← reducer state a; dispatch_all state' rest
  end.

(** A run of recorded mutations from [s] to [s']: every action is of an
    undoable kind and [appReducer] answers it with a new state (as it does
    when the schedule changes); [snaps] lists the schedules that were
    present when each action was dispatched. *)
Inductive recorded_run :
  HistoryState -> list Action -> list Schedule -> HistoryState -> Prop :=
| recorded_nil (s : HistoryState) : recorded_run s [] [] s
| recorded_cons (s : HistoryState) (a : Action) (newPresent : AppState)
    (s1 : HistoryState) (actions : list Action) (snaps : list Schedule)
    (s' : HistoryState) :
    isUndoable a = true ->
    appReducer (present s) a = Ok (Changed newPresent) ->
    reducer s a = Ok s1 ->
    recorded_run s1 actions snaps s' ->
    recorded_run s (a :: actions) (schedule (present s) :: snaps) s'.

End Reducer.

(** ** Time Grid Calculator *)

Definition digit_of (c : ascii) : option Z :=
  let n := nat_of_ascii c in
  if decide (48 <= n <= 57) then Some (Z.of_nat (n - 48)) else None.

(** ["HH:MM"] as minutes after midnight. *)
Definition parseTime (s : string) : option Z :=
  match s with
  | String h1 (String h2 (String sep (String m1 (String m2 EmptyString)))) =>
      a ← digit_of h1; b ← digit_of h2; c ← digit_of m1; d ← digit_of m2;
      let hh := (10 * a + b)%Z in
      let mm := (10 * c + d)%Z in
      if decide (sep = ":"%char ∧ hh < 24 ∧ mm < 60)%Z then Some (60 * hh + mm)%Z else None
  | _ => None
  end.

Definition pad2 (n : Z) : string :=
  if decide (n < 10)%Z then "0" +:+ pretty n else pretty n.

Definition formatTime (m : Z) : string :=
  pad2 (m / 60) +:+ ":" +:+ pad2 (m mod 60).

Definition lessonSlot (idx : nat) (t : Z) (ts : TimeSettings) : TimeSlot :=
  mkTimeSlot idx false t (t + lessonDuration ts).
Definition breakSlot (idx : nat) (t : Z) (ts : TimeSettings) : TimeSlot :=
  mkTimeSlot idx true t (t + breakDuration ts).

(** Lesson after lesson: [n] lessons are still to be emitted, the next one
    is lesson number [i] (counting from 1), it becomes slot number [idx] and
    starts at minute [t]; a break follows it when [i] is a multiple of
    [lessonsBeforeBreak] and lessons remain. *)
Fixpoint slots_from (ts : TimeSettings) (n : nat) (i : Z) (idx : nat) (t : Z) : list TimeSlot :=
  match n with
  | O => []
  | S n' =>
      let l := lessonSlot idx t ts in
      if decide (i mod lessonsBeforeBreak ts = 0 ∧ i < totalLessons ts)%Z
      then
        let b := breakSlot (S idx) (slotEnd l) ts in
        l :: b :: slots_from ts n' (i + 1) (S (S idx)) (slotEnd b)
      else l :: slots_from ts n' (i + 1) (S idx) (slotEnd l)
  end.

(** Modelled from the spec: [calculateTimeSlots] of [./utils] is not under
    [src/]. Design section 4.1: exactly [totalLessons] lesson slots, a break
    of [breakDuration] minutes after every [lessonsBeforeBreak] lessons
    (none after the last lesson, as the worked scenario of section 8 shows),
    every slot starting where the previous one ends, the first at
    [startTime]; an unparseable [startTime] or a duration that is not
    allowed ([lessonDuration <= 0], [breakDuration < 0]) is a
    [ConfigurationError]. *)
Definition computeSlots (ts : TimeSettings) : Result (list TimeSlot) :=
  match parseTime (startTime ts) with
  | None => Throw "ConfigurationError"
  | Some t0 =>
      if decide (0 < lessonDuration ts ∧ 0 <= breakDuration ts)%Z
      then Ok (slots_from ts (Z.to_nat (totalLessons ts)) 1 0 t0)
      else Throw "ConfigurationError"
  end.

(** [TimeSettings] as section 3 of the design constrains them. *)
Definition valid_settings (ts : TimeSettings) : Prop :=
  (0 < lessonDuration ts)%Z ∧ (0 <= breakDuration ts)%Z ∧
  (1 <= lessonsBeforeBreak ts)%Z ∧ (1 <= totalLessons ts)%Z ∧
  is_Some (parseTime (startTime ts)).

Definition slotDuration (ts : TimeSettings) (s : TimeSlot) : Z :=
  if isBreak s then breakDuration ts else lessonDuration ts.

Definition lessonSlots (slots : list TimeSlot) : list TimeSlot :=
  filter (fun s => isBreak s = false) slots.
Definition breakSlots (slots : list TimeSlot) : list TimeSlot :=
  filter (fun s => isBreak s = true) slots.

(** Every slot starts where the one before it ends, the first one at [t]. *)
Fixpoint contiguous_from (t : Z) (slots : list TimeSlot) : Prop :=
  match slots with
  | [] => True
  | s :: rest => slotStart s = t ∧ contiguous_from (slotEnd s) rest
  end.

(** ** Schedule keys: [`${classId}_${day}_${period}`] *)

Definition show_nat (n : nat) : string := pretty n.

Definition mkKey (c : string) (day period : nat) : string :=
  c +:+ "_" +:+ show_nat day +:+ "_" +:+ show_nat period.

(** [s.split(sep)] *)
Fixpoint split_on (sep : ascii) (s : string) : list string :=
  match s with
  | EmptyString => [EmptyString]
  | String c rest =>
      match split_on sep rest with
      | [] => [String c EmptyString]
      | h :: t => if decide (c = sep) then EmptyString :: h :: t else String c h :: t
      end
  end.

(** [parts.join(sep)] *)
Fixpoint join_with (sep : string) (parts : list string) : string :=
  match parts with
  | [] => EmptyString
  | [p] => p
  | p :: rest => p +:+ sep +:+ join_with sep rest
  end.

Fixpoint read_digits (acc : nat) (s : string) : option nat :=
  match s with
  | EmptyString => Some acc
  | String c rest =>
      let n := nat_of_ascii c in
      if decide (48 <= n <= 57) then read_digits (10 * acc + (n - 48)) rest else None
  end.

Definition read_nat (s : string) : option nat :=
  match s with
  | EmptyString => None
  | _ => read_digits 0 s
  end.

(** Character [c] occurs in [s]. *)
Fixpoint has_char (c : ascii) (s : string) : Prop :=
  match s with
  | EmptyString => False
  | String c' rest => c' = c ∨ has_char c rest
  end.

(** The class, day and period of a key: the last two [_]-separated parts are
    the day and the period, what precedes them is the class id. *)
Definition parseKey (k : string) : option (string * nat * nat) :=
  match reverse (split_on "_"%char k) with
  | p :: d :: c :: cs =>
      period ← read_nat p; day ← read_nat d;
      Some (join_with "_" (reverse (c :: cs)), day, period)
  | _ => None
  end.

Definition class_of_key (k : string) : option string :=
  match parseKey k with
  | Some (c, _, _) => Some c
  | None => None
  end.

(** ** Optimizer Engine *)

(** A placement taken out of the schedule: class, day, period, lesson. *)
Record Placement := mkPlacement {
  pl_class : string;
  pl_day : nat;
  pl_period : nat;
  pl_lesson : LessonData
}.

Definition placement_of (kv : string * LessonData) : option Placement :=
  match parseKey kv.1 with
  | Some (c, d, p) => Some (mkPlacement c d p kv.2)
  | None => None
  end.

(** Step 1: the placements of the schedule, and the pool of one class. *)
Definition placements (sched : Schedule) : list Placement :=
  omap placement_of (map_to_list sched).

Definition pool (c : string) (ps : list Placement) : list Placement :=
  filter (fun p => pl_class p = c) ps.

(** Breaks are never assignable. *)
Definition assignable (slots : list TimeSlot) : list TimeSlot :=
  filter (fun s => isBreak s = false) slots.

(** The slot of class [c] on day [d] is not yet filled in [out]. *)
Definition unfilled (out : Schedule) (c : string) (d : nat) (s : TimeSlot) : Prop :=
  out !! mkKey c d (index s) = None.

#[global] Instance unfilled_dec out c d s : Decision (unfilled out c d s).
Proof. unfold unfilled. apply _. Defined.

(** Teacher [t] is already committed to a class other than [c] at slot [i]
    of day [d]. *)
Definition committed_elsewhere (out : Schedule) (c : string) (d i : nat) (t : string) : bool :=
  existsb (fun kv =>
             match parseKey kv.1 with
             | Some (c', d', i') =>
                 bool_decide (c' ≠ c ∧ d' = d ∧ i' = i ∧ teacherId kv.2 = t)
             | None => false
             end) (map_to_list out).

(** Steps 2 to 4 for one lesson: the first unfilled slot at which its
    teacher is free; failing that, the first unfilled slot; the design gives
    no rule when the class has no unfilled slot left on that day, and the
    model has no result there. *)
Definition place (free_slots : list TimeSlot) (c : string) (p : Placement)
    (out : Schedule) : option Schedule :=
  let remaining := filter (unfilled out c (pl_day p)) free_slots in
  match find (fun s => negb (committed_elsewhere out c (pl_day p) (index s)
                               (teacherId (pl_lesson p)))) remaining with
  | Some s => Some (<[mkKey c (pl_day p) (index s) := pl_lesson p]> out)
  | None =>
      match remaining with
      | s :: _ => Some (<[mkKey c (pl_day p) (index s) := pl_lesson p]> out)
      | [] => None
      end
  end.

Fixpoint place_all (free_slots : list TimeSlot) (c : string) (ps : list Placement)
    (out : Schedule) : option Schedule :=
  match ps with
  | [] => Some out
  | p :: rest => out' ← place free_slots c p out; place_all free_slots c rest out'
  end.

Fixpoint optimize_classes (free_slots : list TimeSlot) (ps : list Placement)
    (cs : list ClassGroup) (out : Schedule) : option Schedule :=
  match cs with
  | [] => Some out
  | c :: rest =>
      out' ← place_all free_slots (class_id c) (pool (class_id c) ps) out;
      optimize_classes free_slots ps rest out'
  end.

(** Modelled from the spec: [runOptimization] of [./utils] is not under
    [src/]. Design section 4.2: the placements are partitioned by class;
    class by class, in the order of [classes], each pending lesson goes to
    the earliest slot of the class that is not yet filled and at which its
    teacher is not committed to another class, and to the earliest slot not
    yet filled when there is no such slot; breaks are skipped. A key is
    [classId_day_period]; the slot sequence ranges over the periods, so a
    lesson keeps its day. Placements whose class is not in [classes] (or
    whose key names no class) are left out. The result is [None] where the
    design says nothing: a lesson whose class has no unfilled slot left. *)
Definition optimize (sched : Schedule) (classes : list ClassGroup)
    (slots : list TimeSlot) : option Schedule :=
  optimize_classes (assignable slots) (placements sched) classes ∅.

(** ** State Reconciler *)

(** Two JSON values of the same kind. *)
Definition same_kind (a b : Json) : bool :=
  match a, b with
  | JNull, JNull | JBool _, JBool _ | JNum _, JNum _ | JStr _, JStr _
  | JArr _, JArr _ | JObj _, JObj _ => true
  | _, _ => false
  end.

(** Modelled from the spec: [deepMerge] of [./utils] is not under [src/].
    Design section 4.4: field by field, a structurally compatible incoming
    value wins and the default is kept otherwise, recursively through nested
    objects; arrays are taken wholesale, and so are the entries of a
    dictionary (the incoming fields that the default does not list are
    carried over, which is how the entries of [schedule] arrive); nothing
    throws, whatever the incoming value is. *)
Fixpoint deepMergeJson (target source : Json) {struct target} : Json :=
  match target with
  | JObj tf =>
      match source with
      | JObj sf =>
          JObj (map (fun kv =>
                       (kv.1, match assoc kv.1 sf with
                              | Some sv => deepMergeJson kv.2 sv
                              | None => kv.2
                              end)) tf
                ++ filter (fun kv => has_key kv.1 tf = false) sf)
      | _ => target
      end
  | _ => if same_kind target source then source else target
  end.

(** [r] has every field that [d] has, at every depth, with a value of the
    same kind. *)
Fixpoint has_shape (d r : Json) {struct d} : bool :=
  match d with
  | JObj df =>
      match r with
      | JObj rf =>
          forallb (fun kv => match assoc kv.1 rf with
                             | Some rv => has_shape kv.2 rv
                             | None => false
                             end) df
      | _ => false
      end
  | _ => same_kind d r
  end.

(** No object of [j] lists a field twice. *)
Fixpoint unique_keys (j : Json) : bool :=
  match j with
  | JObj fs =>
      bool_decide (NoDup (map fst fs)) && forallb (fun kv => unique_keys kv.2) fs
  | JArr items => forallb unique_keys items
  | _ => true
  end.

(** The application state as the JSON value that is persisted
    ([JSON.stringify(store.present)]) and merged. *)
Definition encodeTeacher (t : Teacher) : Json :=
  JObj [("id", JStr (teacher_id t)); ("name", JStr (teacher_name t));
        ("color", JStr (teacher_color t))].
Definition encodeClass (c : ClassGroup) : Json :=
  JObj [("id", JStr (class_id c)); ("name", JStr (class_name c))].
Definition encodeLesson (l : LessonData) : Json :=
  JObj [("teacherId", JStr (teacherId l)); ("subject", JStr (subject l))].
Definition encodeSettings (ts : TimeSettings) : Json :=
  JObj [("lessonDuration", JNum (lessonDuration ts)); ("breakDuration", JNum (breakDuration ts));
        ("lessonsBeforeBreak", JNum (lessonsBeforeBreak ts));
        ("startTime", JStr (startTime ts)); ("totalLessons", JNum (totalLessons ts))].
Definition encode (s : AppState) : Json :=
  JObj [("teachers", JArr (map encodeTeacher (teachers s)));
        ("classes", JArr (map encodeClass (classes s)));
        ("schedule", JObj (map (fun kv => (kv.1, encodeLesson kv.2)) (map_to_list (schedule s))));
        ("settings", encodeSettings (settings s));
        ("design", JObj (design s));
        ("ui", JObj (ui s));
        ("printDesign", JObj (printDesign s))].

(** Reading a JSON value at the types that TypeScript declares for it. *)
Definition asStr (j : option Json) : option string :=
  match j with Some (JStr s) => Some s | _ => None end.
Definition asNum (j : option Json) : option Z :=
  match j with Some (JNum n) => Some n | _ => None end.
Definition asArr (j : option Json) : option (list Json) :=
  match j with Some (JArr l) => Some l | _ => None end.
Definition asObj (j : option Json) : option Obj :=
  match j with Some (JObj o) => Some o | _ => None end.

Definition decodeTeacher (j : Json) : option Teacher :=
  o ← asObj (Some j);
  i ← asStr (assoc "id" o); n ← asStr (assoc "name" o); c ← asStr (assoc "color" o);
  Some (mkTeacher i n c).
Definition decodeClass (j : Json) : option ClassGroup :=
  o ← asObj (Some j);
  i ← asStr (assoc "id" o); n ← asStr (assoc "name" o);
  Some (mkClassGroup i n).
Definition decodeLesson (j : Json) : option LessonData :=
  o ← asObj (Some j);
  t ← asStr (assoc "teacherId" o); s ← asStr (assoc "subject" o);
  Some (mkLesson t s).
Definition decodeSettings (j : Json) : option TimeSettings :=
  o ← asObj (Some j);
  ld ← asNum (assoc "lessonDuration" o); bd ← asNum (assoc "breakDuration" o);
  lbb ← asNum (assoc "lessonsBeforeBreak" o); st ← asStr (assoc "startTime" o);
  tl ← asNum (assoc "totalLessons" o);
  Some (mkTimeSettings ld bd lbb st tl).
Definition decode (j : Json) : option AppState :=
  o ← asObj (Some j);
  ts ← asArr (assoc "teachers" o) ≫= mapM decodeTeacher;
  cs ← asArr (assoc "classes" o) ≫= mapM decodeClass;
  sched ← asObj (assoc "schedule" o)
            ≫= mapM (fun kv => l ← decodeLesson kv.2; Some (kv.1, l));
  st ← assoc "settings" o ≫= decodeSettings;
  d ← asObj (assoc "design" o); u ← asObj (assoc "ui" o); pd ← asObj (assoc "printDesign" o);
  Some (mkAppState ts cs (list_to_map sched) st d u pd).

(** ** [initData] *)

Section InitData.
Context {St : Type}.
(** [DEFAULT_STATE] and [deepMerge], at the type of the stored state. *)
Variable DEFAULT : St.
Variable merge : St -> Json -> Result St.
(** [localStorage.getItem(STORAGE_KEY)]: [null] or the stored text. *)
Variable getItem : Result (option string).
Variable JSON_parse : string -> Result Json.

(** The [try] block: [Some h] when it executes [return h], [None] when it
    falls through ([local] is [null] or the empty string). *)
Definition initData_try : Result (option (History St)) :=
  local ← getItem;
  match local with
  | None => Ok None
  | Some text =>
      if decide (text = "") then Ok None
      else
        parsed ← JSON_parse text;
        mergedState ← merge DEFAULT parsed;
        Ok (Some (mkHistory [] mergedState []))
  end.

Definition initData : Result (History St) :=
  r ← try_catch initData_try (fun e => (* console.error(e) *) Ok None);
  match r with
  | Some h => Ok h
  | None => Ok (mkHistory [] DEFAULT [])
  end.
End InitData.

(** ** The imports, as the design describes them *)

(** Modelled from the spec: the three functions of [./utils], as modelled
    above, as one instance of the imports for the statements at sample
    inputs. The design gives [optimize] and [merge] no failure: where the
    model of the optimizer has no answer the schedule is left as it is, and
    where the merged value does not read back as an [AppState] the default
    state is kept (design section 7). [deepMerge] is the JSON-level merge
    read back at type [AppState]; [COLORS], of [./types], is described
    nowhere and is one fixed colour here. *)
Definition spec_imports : Imports := {|
  COLORS := fun _ => "#6366f1";
  calculateTimeSlots := computeSlots;
  runOptimization := fun sched cs slots =>
    match optimize sched cs slots with
    | Some out => Ok out
    | None => Ok sched
    end;
  deepMerge := fun d payload =>
    match decode (deepMergeJson (encode d) payload) with
    | Some s => Ok s
    | None => Ok d
    end
|}.

(** ** Vocabulary of the statements *)

(** The mutations that are not recorded in the history: teacher and class
    add, update and delete, settings, design, print design and UI updates. *)
Definition isPlainMutation (action : Action) : bool :=
  match action with
  | ADD_TEACHER _ | UPDATE_TEACHER _ | DELETE_TEACHER _
  | ADD_CLASS _ | UPDATE_CLASS _ | DELETE_CLASS _
  | UPDATE_SETTINGS _ | UPDATE_DESIGN _ | UPDATE_PRINT_DESIGN _ | UPDATE_UI _ => true
  | _ => false
  end.

(** Two application states that differ at most in their schedule. *)
Definition same_but_schedule (a b : AppState) : Prop :=
  teachers a = teachers b ∧ classes a = classes b ∧ settings a = settings b ∧
  design a = design b ∧ ui a = ui b ∧ printDesign a = printDesign b.

(** The history holds at most [HISTORY_LIMIT] snapshots, [past] and [future]
    together. *)
Definition within_limit (s : HistoryState) : Prop :=
  length (past s) + length (future s) <= HISTORY_LIMIT.

(** [past] after an undoable mutation was recorded on top of [past]: the
    snapshot is appended, and the oldest entry goes when the bound is hit. *)
Definition recorded_past (past : list Schedule) (snapshot : Schedule) : list Schedule :=
  (if decide (HISTORY_LIMIT <= length past) then drop 1 past else past) ++ [snapshot].

(** Where lesson number [i] sits in the slot sequence: after [i - 1]
    lessons and the breaks that followed them. *)
Definition position_of (ts : TimeSettings) (i : Z) : Z :=
  ((i - 1) + (i - 1) / lessonsBeforeBreak ts)%Z.

(** The invariant of the loop of [slots_from]: [idx] is the position of
    lesson [i], and [n] lessons remain up to [totalLessons]. *)
Definition loop_invariant (ts : TimeSettings) (n : nat) (i : Z) (idx : nat) : Prop :=
  (1 <= lessonsBeforeBreak ts ∧ 1 <= i ∧ Z.of_nat idx = position_of ts i ∧
   Z.of_nat n = totalLessons ts - i + 1)%Z.

(** Structural induction on JSON values, through arrays and objects. *)
Fixpoint Json_nested_ind (P : Json -> Prop)
    (Hnull : P JNull) (Hbool : forall b, P (JBool b)) (Hnum : forall n, P (JNum n))
    (Hstr : forall s, P (JStr s))
    (Harr : forall items, Forall P items -> P (JArr items))
    (Hobj : forall fields, Forall (fun kv => P kv.2) fields -> P (JObj fields))
    (j : Json) {struct j} : P j :=
  match j with
  | JNull => Hnull
  | JBool b => Hbool b
  | JNum n => Hnum n
  | JStr s => Hstr s
  | JArr items =>
      Harr items
        ((fix go (l : list Json) : Forall P l :=
            match l with
            | [] => @List.Forall_nil _ _
            | x :: r =>
                @List.Forall_cons _ _ x r
                  (Json_nested_ind P Hnull Hbool Hnum Hstr Harr Hobj x) (go r)
            end) items)
  | JObj fields =>
      Hobj fields
        ((fix go (l : list (string * Json)) : Forall (fun kv => P kv.2) l :=
            match l with
            | [] => @List.Forall_nil _ _
            | kv :: r =>
                @List.Forall_cons _ (fun kv => P kv.2) kv r
                  (Json_nested_ind P Hnull Hbool Hnum Hstr Harr Hobj kv.2) (go r)
            end) fields)
  end.

(** The [HISTORY_LIMIT] most recent entries of a list of snapshots. *)
Definition keep_last (l : list Schedule) : list Schedule :=
  drop (length l - HISTORY_LIMIT) l.

(** ** What the context provides, and the timeline of a history state *)

(** [canUndo: store.past.length > 0], [canRedo: store.future.length > 0] *)
Definition canUndo (store : HistoryState) : bool := bool_decide (0 < length (past store)).
Definition canRedo (store : HistoryState) : bool := bool_decide (0 < length (future store)).

(** The snapshots of a history state in the order of the edits: what can be
    undone, what is shown, what can be redone. *)
Definition timeline (s : HistoryState) : list Schedule :=
  past s ++ schedule (present s) :: future s.

Definition isTimeTravel (a : Action) : bool :=
  match a with UNDO | REDO => true | _ => false end.

(** ** Theme colours (the colour helpers of the theme effect) *)

Module Theme.
#[local] Open Scope Z_scope.

(** [{ r, g, b }] *)
Record Rgb := mkRgb { r : Z; g : Z; b : Z }.

(** The value of one character under [[a-f\d]] with the [i] flag, as
    [parseInt(_, 16)] reads it. *)
Definition hexValue (c : ascii) : option Z :=
  let n := Z.of_nat (nat_of_ascii c) in
  if (48 <=? n) && (n <=? 57) then Some (n - 48)
  else if (97 <=? n) && (n <=? 102) then Some (n - 87)
  else if (65 <=? n) && (n <=? 70) then Some (n - 55)
  else None.

(** [parseInt(pair, 16)] on a group [([a-f\d]{2})] of the pattern. *)
Definition hexPair (hi lo : ascii) : option Z :=
  h ← hexValue hi; l ← hexValue lo; Some (16 * h + l).

(** What is left of [hex] after the [#?] of the pattern. *)
Definition afterHash (hex : string) : string :=
  match hex with String "#" rest => rest | _ => hex end.

(** [/^#?([a-f\d]{2})([a-f\d]{2})([a-f\d]{2})$/i.exec(hex)]: an optional
    [#], then exactly six hexadecimal digits up to the end of the string. *)
Definition hexToRgb (hex : string) : option Rgb :=
  match afterHash hex with
  | String r1 (String r0 (String g1 (String g0 (String b1 (String b0 EmptyString))))) =>
      r ← hexPair r1 r0; g ← hexPair g1 g0; b ← hexPair b1 b0; Some (mkRgb r g b)
  | _ => None
  end.

(** [ToInt32] on an integer. *)
Definition toInt32 (z : Z) : Z :=
  let m := z mod 2 ^ 32 in if m <? 2 ^ 31 then m else m - 2 ^ 32.

(** [x << n] on integers: both operands to 32 bits, the count masked to
    five bits, the result wrapped to a signed 32-bit integer. *)
Definition shiftLeft (x n : Z) : Z := toInt32 (Z.shiftl (toInt32 x) (n mod 32)).

Definition hexDigit (d : Z) : ascii :=
  default "0"%char (String.get (Z.to_nat d) "0123456789abcdef").

(** The digits of [n > 0] in base 16, most significant first, in front of
    [acc]; [fuel] bounds the number of digits. *)
Fixpoint toHex (fuel : nat) (n : Z) (acc : string) : string :=
  match fuel with
  | O => acc
  | S fuel' =>
      let acc' := String (hexDigit (n mod 16)) acc in
      if n / 16 =? 0 then acc' else toHex fuel' (n / 16) acc'
  end.

(** [n.toString(16)] on an integer. *)
Definition toString16 (n : Z) : string :=
  if n <? 0 then "-" +:+ toHex (S (Z.to_nat (Z.log2 (- n)))) (- n) ""
  else toHex (S (Z.to_nat (Z.log2 n))) n "".

(** [s.slice(1)] *)
Definition slice1 (s : string) : string :=
  match s with EmptyString => EmptyString | String _ rest => rest end.

(** [rgbToHex]; the channels are integers (the callers pass [Math.round]
    results), and the sum is the exact one, as it is in floating point for
    integers of this size. *)
Definition rgbToHex (r g b : Z) : string :=
  "#" +:+ slice1 (toString16 (shiftLeft 1 24 + shiftLeft r 16 + shiftLeft g 8 + b)).

End Theme.

(** ** Toasts *)

Module Toasts.

Record ToastMessage := mkToast {
  id : string;
  type : string;
  message : string
}.

(** [addToast(type, message)], [newId] being what [generateId()] returned;
    the function is [prev => [...prev, { id, type, message }]]. *)
Definition addToast (newId type message : string) (prev : list ToastMessage)
    : list ToastMessage :=
  prev ++ [mkToast newId type message].

(** [removeToast(id)]: [prev => prev.filter(t => t.id !== id)]. *)
Definition removeToast (gone : string) (prev : list ToastMessage) : list ToastMessage :=
  filter (fun t => id t ≠ gone) prev.

End Toasts.

(** ** The project store (the second [App.tsx] of the file: a reducer
    without history, with several projects) *)

Module Projects.

(** [project.data] *)
Record ProjectData := mkProjectData {
  data_teachers : list Teacher;
  data_classes : list ClassGroup;
  data_lessons : list Json;
  data_timeSettings : Json;
  data_designSettings : Json
}.

Record Project := mkProject {
  id : string;
  name : string;
  description : option string;
  createdAt : Z;
  updatedAt : Z;
  data : ProjectData
}.

Record AppState := mkAppState {
  teachers : list Teacher;
  classes : list ClassGroup;
  lessons : list Json;
  timeSettings : Json;
  designSettings : Json;
  printSettings : Json;
  ui : Obj;
  schedules : list Json;
  currentScheduleId : option string;
  activeProjectId : option string;
  projects : list Project
}.

(** [Partial<AppState>]: [None] for a key that the object does not have. *)
Record PartialAppState := mkPartialAppState {
  p_teachers : option (list Teacher);
  p_classes : option (list ClassGroup);
  p_lessons : option (list Json);
  p_timeSettings : option Json;
  p_designSettings : option Json;
  p_printSettings : option Json;
  p_ui : option Obj;
  p_schedules : option (list Json);
  p_currentScheduleId : option (option string);
  p_activeProjectId : option (option string);
  p_projects : option (list Project)
}.

Inductive Action : Type :=
| SET_STATE (payload : AppState)
| UPDATE_TEACHERS (payload : list Teacher)
| UPDATE_CLASSES (payload : list ClassGroup)
| UPDATE_LESSONS (payload : list Json)
| UPDATE_TIME_SETTINGS (payload : Json)
| UPDATE_DESIGN_SETTINGS (payload : Json)
| UPDATE_PRINT_SETTINGS (payload : Json)
| UPDATE_UI_SETTINGS (payload : Obj)
| SET_ACTIVE_TAB (payload : string)
| ADD_TOAST (payload : Json)
| REMOVE_TOAST (payload : string)
| SET_SCHEDULES (payload : list Json)
| SET_CURRENT_SCHEDULE (payload : option string)
| CREATE_PROJECT (name : string) (description : option string)
| UPDATE_PROJECT (id : string) (name : string) (description : option string)
| DELETE_PROJECT (payload : string)
| SET_ACTIVE_PROJECT (payload : string)
| IMPORT_PROJECT_DATA (payload : PartialAppState).

(** What one run of the reducer gets from outside: the result of
    [generateId()] (it is imported, and may throw) and the readings of
    [Date.now()], numbered in the order of the calls. *)
Record Env := mkEnv {
  generateId : Result string;
  now : nat -> Z
}.

(** [{ teachers: state.teachers, ..., designSettings: state.designSettings }] *)
Definition currentData (state : AppState) : ProjectData :=
  mkProjectData (teachers state) (classes state) (lessons state)
    (timeSettings state) (designSettings state).

(** [{ ...state, teachers: d.teachers, ..., designSettings: d.designSettings }]
    together with the new [projects] and [activeProjectId]. *)
Definition load (state : AppState) (ps : list Project) (active : option string)
    (d : ProjectData) : AppState :=
  mkAppState (data_teachers d) (data_classes d) (data_lessons d)
    (data_timeSettings d) (data_designSettings d)
    (printSettings state) (ui state) (schedules state) (currentScheduleId state)
    active ps.

Definition with_projects (state : AppState) (ps : list Project) : AppState :=
  mkAppState (teachers state) (classes state) (lessons state) (timeSettings state)
    (designSettings state) (printSettings state) (ui state) (schedules state)
    (currentScheduleId state) (activeProjectId state) ps.

Definition with_ui (state : AppState) (v : Obj) : AppState :=
  mkAppState (teachers state) (classes state) (lessons state) (timeSettings state)
    (designSettings state) (printSettings state) v (schedules state)
    (currentScheduleId state) (activeProjectId state) (projects state).

(** [projects.map(p => test(p) ? update(Date.now(), p) : p)]: the clock is
    read once for every project that passes the test, [k] readings having
    been taken before. *)
Fixpoint map_stamped (test : Project -> bool) (update : Z -> Project -> Project)
    (now : nat -> Z) (k : nat) (ps : list Project) : list Project :=
  match ps with
  | [] => []
  | p :: rest =>
      if test p
      then update (now k) p :: map_stamped test update now (S k) rest
      else p :: map_stamped test update now k rest
  end.

(** [projects.find(p => p.id === wanted)] *)
Definition find_project (wanted : string) (ps : list Project) : option Project :=
  List.find (fun p => bool_decide (id p = wanted)) ps.

(** [{ ...state, ...payload }] *)
Definition import_data (state : AppState) (payload : PartialAppState) : AppState :=
  mkAppState
    (default (teachers state) (p_teachers payload))
    (default (classes state) (p_classes payload))
    (default (lessons state) (p_lessons payload))
    (default (timeSettings state) (p_timeSettings payload))
    (default (designSettings state) (p_designSettings payload))
    (default (printSettings state) (p_printSettings payload))
    (default (ui state) (p_ui payload))
    (default (schedules state) (p_schedules payload))
    (default (currentScheduleId state) (p_currentScheduleId payload))
    (default (activeProjectId state) (p_activeProjectId payload))
    (default (projects state) (p_projects payload)).

Section Store.
Context `{imports : Imports}.

Definition DEFAULT_STATE : AppState := {|
  teachers := [ mkTeacher "t1" "ښوونکی ۱" (COLORS 6);
                mkTeacher "t2" "ښوونکی ۲" (COLORS 10);
                mkTeacher "t3" "ښوونکی ۳" (COLORS 14) ];
  classes := [ mkClassGroup "c1" "لومړی ټولګی"; mkClassGroup "c2" "دوهم ټولګی" ];
  lessons := [];
  timeSettings := JObj [
    ("days", JNum 6); ("periodsPerDay", JNum 6); ("periodDuration", JNum 45);
    ("startTime", JStr "08:00");
    ("breaks", JArr [
       JObj [ ("afterPeriod", JNum 2); ("duration", JNum 15); ("label", JStr "تفریح") ];
       JObj [ ("afterPeriod", JNum 4); ("duration", JNum 30);
              ("label", JStr "د غرمې وقفه") ] ]);
    ("weekStartDay", JNum 6);
    ("customDayNames", JObj [
       ("0", JStr "یکشنبه"); ("1", JStr "دوشنبه"); ("2", JStr "سه شنبه");
       ("3", JStr "چهارشنبه"); ("4", JStr "پنجشنبه"); ("5", JStr "جمعه");
       ("6", JStr "شنبه") ]) ];
  designSettings := JObj [
    ("showTeacherName", JBool true); ("showSubject", JBool true);
    ("showRoom", JBool false); ("showTime", JBool true); ("fontScale", JNum 1);
    ("colorScheme", JStr "modern"); ("compactMode", JBool false);
    ("showBreaks", JBool true); ("headerColor", JStr "#4f46e5");
    ("tableBorderColor", JStr "#e2e8f0"); ("fontFamily", JStr "Vazirmatn") ];
  printSettings := JObj [
    ("paperSize", JStr "a4"); ("orientation", JStr "landscape");
    ("showHeader", JBool true); ("showFooter", JBool true);
    ("headerText", JStr "د مدرسې مهال ویش");
    ("footerText", JStr "جوړ شوی د هوښیار مهال ویش سیستم لخوا");
    ("scale", JNum 1); ("colorMode", JStr "color");
    ("includeTeachersList", JBool true); ("includeClassesList", JBool true) ];
  ui := [ ("theme", JStr "system"); ("language", JStr "ps");
          ("sidebarCollapsed", JBool false); ("activeTab", JStr "dashboard");
          ("primaryColor", JStr "indigo"); ("direction", JStr "rtl");
          ("showHeader", JBool true); ("showFooter", JBool true) ];
  schedules := [];
  currentScheduleId := None;
  activeProjectId := None;
  projects := []
|}.

(** [{ ...DEFAULT_STATE, projects: [], activeProjectId: null }] *)
Definition reset : AppState :=
  mkAppState (teachers DEFAULT_STATE) (classes DEFAULT_STATE) (lessons DEFAULT_STATE)
    (timeSettings DEFAULT_STATE) (designSettings DEFAULT_STATE)
    (printSettings DEFAULT_STATE) (ui DEFAULT_STATE) (schedules DEFAULT_STATE)
    (currentScheduleId DEFAULT_STATE) None [].

Definition reducer (env : Env) (state : AppState) (action : Action) : Result AppState :=
  match action with
  | SET_STATE payload => Ok payload
  | UPDATE_TEACHERS payload =>
      Ok (mkAppState payload (classes state) (lessons state) (timeSettings state)
            (designSettings state) (printSettings state) (ui state) (schedules state)
            (currentScheduleId state) (activeProjectId state) (projects state))
  | UPDATE_CLASSES payload =>
      Ok (mkAppState (teachers state) payload (lessons state) (timeSettings state)
            (designSettings state) (printSettings state) (ui state) (schedules state)
            (currentScheduleId state) (activeProjectId state) (projects state))
  | UPDATE_LESSONS payload =>
      Ok (mkAppState (teachers state) (classes state) payload (timeSettings state)
            (designSettings state) (printSettings state) (ui state) (schedules state)
            (currentScheduleId state) (activeProjectId state) (projects state))
  | UPDATE_TIME_SETTINGS payload =>
      Ok (mkAppState (teachers state) (classes state) (lessons state) payload
            (designSettings state) (printSettings state) (ui state) (schedules state)
            (currentScheduleId state) (activeProjectId state) (projects state))
  | UPDATE_DESIGN_SETTINGS payload =>
      Ok (mkAppState (teachers state) (classes state) (lessons state) (timeSettings state)
            payload (printSettings state) (ui state) (schedules state)
            (currentScheduleId state) (activeProjectId state) (projects state))
  | UPDATE_PRINT_SETTINGS payload =>
      Ok (mkAppState (teachers state) (classes state) (lessons state) (timeSettings state)
            (designSettings state) payload (ui state) (schedules state)
            (currentScheduleId state) (activeProjectId state) (projects state))
  | UPDATE_UI_SETTINGS payload =>
      (* the branch on [payload.primaryColor] only binds a local constant *)
      Ok (with_ui state (spread (ui state) payload))
  | SET_ACTIVE_TAB payload =>
      Ok (with_ui state (spread (ui state) [("activeTab", JStr payload)]))
  | SET_SCHEDULES payload =>
      Ok (mkAppState (teachers state) (classes state) (lessons state) (timeSettings state)
            (designSettings state) (printSettings state) (ui state) payload
            (currentScheduleId state) (activeProjectId state) (projects state))
  | SET_CURRENT_SCHEDULE payload =>
      Ok (mkAppState (teachers state) (classes state) (lessons state) (timeSettings state)
            (designSettings state) (printSettings state) (ui state) (schedules state)
            payload (activeProjectId state) (projects state))
  | CREATE_PROJECT name description =>
      newId ← generateId env;
      let newProject :=
        mkProject newId name description (now env 0) (now env 1)
          (mkProjectData (teachers DEFAULT_STATE) (classes DEFAULT_STATE) []
             (timeSettings DEFAULT_STATE) (designSettings DEFAULT_STATE)) in
      Ok (load state (projects state ++ [newProject]) (Some (id newProject))
            (data newProject))
  | UPDATE_PROJECT pid name description =>
      Ok (with_projects state
            (map_stamped (fun p => bool_decide (id p = pid))
               (fun stamp p => mkProject (id p) name description (createdAt p) stamp (data p))
               (now env) 0 (projects state)))
  | DELETE_PROJECT payload =>
      let remainingProjects := filter (fun p => id p ≠ payload) (projects state) in
      let nextProjectId := id <$> head remainingProjects in
      if decide (activeProjectId state = Some payload)
      then
        match head remainingProjects with
        | Some nextProject =>
            if decide (id nextProject = "")
            then Ok reset
            else Ok (load state remainingProjects nextProjectId (data nextProject))
        | None => Ok reset
        end
      else Ok (with_projects state remainingProjects)
  | SET_ACTIVE_PROJECT payload =>
      match find_project payload (projects state) with
      | None => Ok state
      | Some projectToLoad =>
          let updatedProjects :=
            map_stamped (fun p => bool_decide (Some (id p) = activeProjectId state))
              (fun stamp p =>
                 mkProject (id p) (name p) (description p) (createdAt p) stamp
                   (currentData state))
              (now env) 0 (projects state) in
          Ok (load state updatedProjects (Some payload) (data projectToLoad))
      end
  | IMPORT_PROJECT_DATA payload => Ok (import_data state payload)
  | ADD_TOAST _ | REMOVE_TOAST _ => Ok state
  end.

End Store.

(** The initializer given to [useReducer]: the state of the last session,
    merged over the default state, or the default state. *)
Section Initializer.
(** [deepMerge] at the type of this state, [localStorage.getItem] of the
    storage key and [JSON.parse]; each may throw. *)
Variable merge : AppState -> Json -> Result AppState.
Variable getItem : Result (option string).
Variable JSON_parse : string -> Result Json.


End Initializer.

(** The active project, when there is one, is in the list. *)
Definition active_listed (state : AppState) : Prop :=
  forall a, activeProjectId state = Some a -> a ∈ map id (projects state).

(** The actions whose payload carries a whole state, or a part of one. *)
Definition isStateLoad (action : Action) : bool :=
  match action with
  | SET_STATE _ | IMPORT_PROJECT_DATA _ => true
  | _ => false
  end.

End Projects.

(** ** Sample inputs *)

Definition sample_lesson : LessonData := mkLesson "t1" "math".

(** The default state with one lesson placed, one snapshot to undo and none
    to redo. *)
Definition sample_history : HistoryState :=
  mkHistory [∅]
    (with_schedule (@DEFAULT_STATE spec_imports) {["c1_0_0" := sample_lesson]})
    [].

(** The same state after an undo: nothing to undo, one snapshot to redo. *)
Definition undone_history : HistoryState :=
  mkHistory [] (@DEFAULT_STATE spec_imports) [{["c1_0_0" := sample_lesson]}].

(** What [initData] builds when nothing is stored. *)
Definition fresh_history : HistoryState :=
  mkHistory [] (@DEFAULT_STATE spec_imports) [].

(** A project without teachers, classes or lessons, right after a reset. *)
Definition blank_history : HistoryState :=
  mkHistory [] (mkAppState [] [] ∅ (mkTimeSettings 45 15 2 "08:00" 6) [] [] []) [].

(** The settings of the scenario of section 8 of the design. *)
Definition scenario_settings : TimeSettings := mkTimeSettings 45 15 2 "08:00" 4.

Definition scenario_classes : list ClassGroup :=
  [mkClassGroup "c1" "first"; mkClassGroup "c2" "second"].

(** A history state whose last snapshot already holds a lesson of [t1]. *)
Definition taught_history : HistoryState :=
  mkHistory [{["c1_0_0" := sample_lesson]}]
    (with_schedule (@DEFAULT_STATE spec_imports)
       (<["c2_0_0" := sample_lesson]> {["c1_0_0" := sample_lesson]}))
    [].

(** Two recorded edits of the blank project, and the state they lead to. *)
Definition first_to_second : Action :=
  MOVE_LESSON "c1_0_0" "c1_0_1" (conj eq_refl eq_refl).

Definition two_edits : list Action :=
  [SET_LESSON "c1_0_0" (Some sample_lesson); first_to_second].

Definition edited_history : HistoryState :=
  mkHistory [∅; {["c1_0_0" := sample_lesson]}]
    (with_schedule (present blank_history) {["c1_0_1" := sample_lesson]})
    [].

(** Two classes, the id of the second starting with the id of the first
    and an underscore, and one lesson of the second. *)
Definition nested_classes : AppState :=
  mkAppState [] [mkClassGroup "c" "first"; mkClassGroup "c_2" "second"]
    {["c_2_0_0" := sample_lesson]} (mkTimeSettings 45 15 2 "08:00" 6) [] [] [].

(** A project store with two projects, the first one active and edited
    since it was stored. *)
Definition stored_a : Projects.Project :=
  Projects.mkProject "A" "first" None 10 10
    (Projects.mkProjectData [] [] [] JNull JNull).

Definition stored_b : Projects.Project :=
  Projects.mkProject "B" "second" (Some "evening classes") 20 20
    (Projects.mkProjectData [] [mkClassGroup "c7" "seventh"] [] JNull JNull).

Definition sample_store : Projects.AppState :=
  Projects.mkAppState [mkTeacher "t1" "Ahmad" "#6366f1"] [] [JStr "lesson"] JNull JNull
    JNull [] [] None (Some "A") [stored_a; stored_b].

Definition sample_env : Projects.Env :=
  Projects.mkEnv (Ok "N") (fun k => 1000 + Z.of_nat k)%Z.

(** * Theorems *)

(** ** History Manager *)

Section History.
Context `{imports : Imports}.

Lemma push_past_recorded (past : list Schedule) (snapshot : Schedule) :
  push_past past snapshot = recorded_past past snapshot.
Proof.
  unfold push_past, recorded_past. rewrite length_app. simpl length.
  destruct (decide (HISTORY_LIMIT < length past + 1)),
    (decide (HISTORY_LIMIT <= length past)); try lia; [|done].
  destruct past; [unfold HISTORY_LIMIT in *; simpl in *; lia | done].
Qed.

Lemma recorded_past_last (past : list Schedule) (snapshot : Schedule) :
  last (recorded_past past snapshot) = Some snapshot.
Proof. unfold recorded_past. apply last_snoc. Qed.

Lemma recorded_past_length (past : list Schedule) (snapshot : Schedule) :
  length past <= HISTORY_LIMIT ->
  length (recorded_past past snapshot) <= HISTORY_LIMIT.
Proof.
  unfold recorded_past, HISTORY_LIMIT. intros Hlen.
  rewrite length_app. simpl.
  case_decide; [rewrite length_drop|]; lia.
Qed.

(** [past.slice(0, -1)] followed by [past[past.length - 1]] is [past]. *)
Lemma slice_last (l : list Schedule) (x : Schedule) :
  last l = Some x -> take (length l - 1) l ++ [x] = l.
Proof.
  destruct l as [|y l _] using rev_ind; [done|].
  rewrite last_snoc. intros [= ->].
  rewrite length_app. simpl.
  replace (length l + 1 - 1) with (length l) by lia.
  by rewrite take_app_length.
Qed.

Lemma with_schedule_same (p : AppState) (x : Schedule) :
  with_schedule (with_schedule p x) (schedule p) = p.
Proof. by destruct p. Qed.

Lemma with_schedule_frame (p : AppState) (x : Schedule) :
  same_but_schedule (with_schedule p x) p.
Proof. by repeat split. Qed.

(** The default branch of [reducer], for an action that [appReducer]
    answers with a new object. *)
Lemma reducer_changed (s : HistoryState) (a : Action) (newPresent : AppState) :
  isUndoable a = true ∨ isPlainMutation a = true ->
  appReducer (present s) a = Ok (Changed newPresent) ->
  reducer s a =
    Ok (if isUndoable a
        then mkHistory (push_past (past s) (schedule (present s))) newPresent []
        else mkHistory (past s) newPresent (future s)).
Proof.
  intros Hkind Happ.
  destruct a; simpl in Hkind; try (destruct Hkind; discriminate);
    unfold reducer; cbv beta iota zeta; rewrite Happ; reflexivity.
Qed.

Lemma reducer_unchanged (s : HistoryState) (a : Action) :
  isUndoable a = true ∨ isPlainMutation a = true ->
  appReducer (present s) a = Ok Unchanged ->
  reducer s a = Ok s.
Proof.
  intros Hkind Happ.
  destruct a; simpl in Hkind; try (destruct Hkind; discriminate);
    unfold reducer; cbv beta iota zeta; rewrite Happ; reflexivity.
Qed.

Lemma reducer_undo (s : HistoryState) (prev : Schedule) :
  last (past s) = Some prev ->
  reducer s UNDO =
    Ok (mkHistory (take (length (past s) - 1) (past s))
          (with_schedule (present s) prev)
          (schedule (present s) :: future s)).
Proof. intros Hlast. unfold reducer. by rewrite Hlast. Qed.

Lemma reducer_undo_empty (s : HistoryState) :
  past s = [] -> reducer s UNDO = Ok s.
Proof. intros Hpast. unfold reducer. by rewrite Hpast. Qed.

Lemma reducer_redo_empty (s : HistoryState) :
  future s = [] -> reducer s REDO = Ok s.
Proof. intros Hfut. unfold reducer. by rewrite Hfut. Qed.

Lemma nonempty_last (l : list Schedule) : l ≠ [] -> exists x, last l = Some x.
Proof.
  intros Hne. destruct (last l) as [x|] eqn:Hlast; [by exists x|].
  by apply last_None in Hlast.
Qed.

(** C1. Undo right after a recorded undoable mutation brings back the
    schedule that was present before the mutation; redo right after an
    undo brings back the schedule that the undo took away (and with it the
    whole history state); undo on an empty [past] and redo on an empty
    [future] return the state they were given. *)
Theorem undo_redo_round_trip (s : HistoryState) :
  (forall (a : Action) (newPresent : AppState),
      isUndoable a = true ->
      appReducer (present s) a = Ok (Changed newPresent) ->
      exists s1 s2,
        reducer s a = Ok s1 ∧ reducer s1 UNDO = Ok s2 ∧
        schedule (present s2) = schedule (present s)) ∧
  (past s ≠ [] ->
      exists s1,
        reducer s UNDO = Ok s1 ∧
        last (past s) = Some (schedule (present s1)) ∧
        reducer s1 REDO = Ok s) ∧
  (past s = [] -> reducer s UNDO = Ok s) ∧
  (future s = [] -> reducer s REDO = Ok s).
Proof.
  split; [|split; [|split]].
  - intros a newPresent Hundoable Happ.
    eexists _, _. split; [|split].
    + rewrite (reducer_changed s a newPresent) by auto.
      rewrite Hundoable. reflexivity.
    + apply reducer_undo. simpl.
      rewrite push_past_recorded. apply recorded_past_last.
    + reflexivity.
  - intros Hne. destruct (nonempty_last _ Hne) as [prev Hprev].
    eexists. split; [|split].
    + by apply reducer_undo.
    + by rewrite Hprev.
    + unfold reducer. simpl.
      rewrite with_schedule_same, (slice_last _ _ Hprev).
      by destruct s.
  - apply reducer_undo_empty.
  - apply reducer_redo_empty.
Qed.

(** C2. An action of one of the four undoable kinds whose resulting
    schedule differs from the current one is recorded: the prior schedule
    is pushed onto [past], the oldest entry is dropped when the bound of
    100 is exceeded, [future] is emptied and [present] is the new state. *)
Theorem record_undoable (s : HistoryState) (a : Action) (st : Step) :
  isUndoable a = true ->
  appReducer (present s) a = Ok st ->
  schedule (step_state (present s) st) ≠ schedule (present s) ->
  exists s',
    reducer s a = Ok s' ∧
    past s' = (if decide (HISTORY_LIMIT <= length (past s))
               then drop 1 (past s) else past s) ++ [schedule (present s)] ∧
    future s' = [] ∧
    present s' = step_state (present s) st.
Proof.
  intros Hundoable Happ Hdiff.
  destruct st as [|newPresent]; [done|].
  eexists. split.
  - rewrite (reducer_changed s a newPresent) by auto.
    rewrite Hundoable. reflexivity.
  - simpl. by rewrite push_past_recorded.
Qed.

(** C4. With a non-empty [past], undo changes nothing of [present] but its
    schedule, and so does redo with a non-empty [future]: teachers,
    classes, settings, design, ui and printDesign are the same before and
    after. *)
Theorem undo_redo_frame (s : HistoryState) :
  (past s ≠ [] ->
     exists s', reducer s UNDO = Ok s' ∧ same_but_schedule (present s') (present s)) ∧
  (future s ≠ [] ->
     exists s', reducer s REDO = Ok s' ∧ same_but_schedule (present s') (present s)).
Proof.
  split.
  - intros Hne. destruct (nonempty_last _ Hne) as [prev Hprev].
    eexists. split; [by apply reducer_undo|]. apply with_schedule_frame.
  - intros Hne. unfold reducer.
    destruct (future s) as [|next rest]; [done|].
    eexists. split; [reflexivity|]. apply with_schedule_frame.
Qed.

Lemma plain_mutation_changes (p : AppState) (a : Action) :
  isPlainMutation a = true -> exists newPresent, appReducer p a = Ok (Changed newPresent).
Proof. destruct a; try discriminate; intros _; eexists; reflexivity. Qed.

Lemma plain_not_undoable (a : Action) :
  isPlainMutation a = true -> isUndoable a = false.
Proof. by destruct a. Qed.

(** C8. A mutation that is not undoable (teacher or class add, update or
    delete, settings, design, print design or UI update) replaces
    [present] by what [appReducer] computes and leaves [past] and [future]
    as they were. *)
Theorem plain_mutation_keeps_history (s : HistoryState) (a : Action) :
  isPlainMutation a = true ->
  exists s',
    reducer s a = Ok s' ∧
    appReducer (present s) a = Ok (Changed (present s')) ∧
    past s' = past s ∧ future s' = future s.
Proof.
  intros Hplain.
  destruct (plain_mutation_changes (present s) a Hplain) as [newPresent Happ].
  eexists. split.
  - rewrite (reducer_changed s a newPresent) by auto.
    rewrite (plain_not_undoable a Hplain). reflexivity.
  - done.
Qed.

(** *** The bound on [past] *)

Lemma recorded_past_keep_last (past : list Schedule) (snapshot : Schedule) :
  length past <= HISTORY_LIMIT ->
  recorded_past past snapshot = keep_last (past ++ [snapshot]).
Proof.
  unfold recorded_past, keep_last. intros Hlen.
  rewrite length_app. simpl length.
  case_decide.
  - replace (length past + 1 - HISTORY_LIMIT) with 1 by lia.
    rewrite drop_app_le; [done|]. unfold HISTORY_LIMIT in *. lia.
  - replace (length past + 1 - HISTORY_LIMIT) with 0 by lia. done.
Qed.

Lemma keep_last_app (a b : list Schedule) :
  keep_last (keep_last a ++ b) = keep_last (a ++ b).
Proof.
  unfold keep_last. rewrite !length_app, length_drop.
  destruct (decide (length a <= HISTORY_LIMIT)) as [Hle|Hgt].
  - replace (length a - HISTORY_LIMIT) with 0 by lia. simpl.
    by replace (length a - 0) with (length a) by lia.
  - replace (length a - (length a - HISTORY_LIMIT) + length b - HISTORY_LIMIT)
      with (length b) by lia.
    replace (length a + length b - HISTORY_LIMIT)
      with ((length a - HISTORY_LIMIT) + length b) by lia.
    rewrite <- drop_drop. f_equal.
    rewrite drop_app_le by lia. done.
Qed.

Lemma reducer_within_limit (s s' : HistoryState) (a : Action) :
  within_limit s -> reducer s a = Ok s' -> within_limit s'.
Proof.
  unfold within_limit. intros Hlim Hred.
  assert (Hdefault : forall st,
             (match st with
              | Unchanged => Ok s
              | Changed newPresent =>
                  if isUndoable a
                  then Ok (mkHistory (push_past (past s) (schedule (present s))) newPresent [])
                  else Ok (mkHistory (past s) newPresent (future s))
              end) = Ok s' ->
             length (past s') + length (future s') <= HISTORY_LIMIT).
  { intros [|newPresent] Hres.
    - by injection Hres as <-.
    - destruct (isUndoable a); injection Hres as <-; simpl; [|done].
      rewrite push_past_recorded.
      pose proof (recorded_past_length (past s) (schedule (present s))). lia. }
  destruct a; unfold reducer in Hred; cbv beta iota zeta in Hred;
    try (destruct (appReducer (present s) _) as [st|e] eqn:Happ;
         [exact (Hdefault st Hred) | discriminate]).
  - (* INIT *)
    destruct (deepMerge DEFAULT_STATE payload); [|discriminate].
    injection Hred as <-. simpl. unfold HISTORY_LIMIT. lia.
  - (* UNDO *)
    destruct (last (past s)) as [prev|] eqn:Hlast; injection Hred as <-; [|done].
    simpl. rewrite length_take.
    destruct (past s); [done|]. simpl in *. lia.
  - (* REDO *)
    destruct (future s) as [|next rest] eqn:Hfut; injection Hred as <-;
      [by rewrite Hfut|].
    clear Hdefault. simpl in *. rewrite length_app. simpl. lia.
  - (* RESET_PROJECT *)
    injection Hred as <-. simpl. unfold HISTORY_LIMIT. lia.
Qed.

Lemma dispatch_all_within_limit (actions : list Action) (s s' : HistoryState) :
  within_limit s -> dispatch_all s actions = Ok s' -> within_limit s'.
Proof.
  revert s. induction actions as [|a actions IH]; intros s Hlim Hrun; simpl in Hrun.
  - by injection Hrun as <-.
  - destruct (reducer s a) as [s1|e] eqn:Hred; [|discriminate].
    eapply IH; [|exact Hrun]. by eapply reducer_within_limit.
Qed.

(** Recording a run of mutations: [past] ends as the last [HISTORY_LIMIT]
    of the schedules that were present before each one. *)
Lemma recorded_run_past (s s' : HistoryState) (actions : list Action)
    (snaps : list Schedule) :
  recorded_run s actions snaps s' ->
  length (past s) <= HISTORY_LIMIT ->
  dispatch_all s actions = Ok s' ∧
  length snaps = length actions ∧
  past s' = keep_last (past s ++ snaps).
Proof.
  induction 1 as [s|s a newPresent s1 actions snaps s' Hundoable Happ Hred Hrun IH];
    intros Hlen.
  - split; [done|]. split; [done|]. rewrite app_nil_r.
    unfold keep_last. by replace (length (past s) - HISTORY_LIMIT) with 0 by lia.
  - assert (Hpast1 : past s1 = recorded_past (past s) (schedule (present s))).
    { rewrite (reducer_changed s a newPresent), Hundoable in Hred by auto.
      injection Hred as <-. simpl. apply push_past_recorded. }
    destruct IH as (Hdispatch & Hsnaps & Hpast').
    { rewrite Hpast1. by apply recorded_past_length. }
    split; [|split].
    + cbn [dispatch_all]. by rewrite Hred.
    + simpl. by rewrite Hsnaps.
    + rewrite Hpast', Hpast1, recorded_past_keep_last by done.
      by rewrite keep_last_app, <- app_assoc.
Qed.

(** C3. From a history state with empty [past] and empty [future] (the
    shape that [initData], [INIT] and [RESET_PROJECT] build), whatever the
    actions dispatched, [past] never holds more than 100 snapshots; and
    from an empty [past], recording 101 undoable mutations leaves exactly
    100 snapshots: the schedules present before each mutation, less the
    oldest one, which is the schedule of the initial state. *)
Theorem past_never_exceeds_limit (s : HistoryState) :
  past s = [] ->
  (future s = [] ->
   forall actions s', dispatch_all s actions = Ok s' -> length (past s') <= 100) ∧
  (forall actions snaps s',
     length actions = 101 ->
     recorded_run s actions snaps s' ->
     dispatch_all s actions = Ok s' ∧
     length (past s') = 100 ∧
     head snaps = Some (schedule (present s)) ∧
     past s' = drop 1 snaps).
Proof.
  intros Hpast. split.
  - intros Hfuture actions s' Hrun.
    assert (Hlim : within_limit s).
    { unfold within_limit. rewrite Hpast, Hfuture. simpl. lia. }
    pose proof (dispatch_all_within_limit actions s s' Hlim Hrun) as Hlim'.
    unfold within_limit, HISTORY_LIMIT in Hlim'. lia.
  - intros actions snaps s' Hlen Hrun.
    assert (Hhead : head snaps = Some (schedule (present s))).
    { destruct Hrun; [done|reflexivity]. }
    apply recorded_run_past in Hrun as (Hdispatch & Hsnaps & Hpast').
    + rewrite Hpast in Hpast'. simpl in Hpast'.
      assert (Hdrop : past s' = drop 1 snaps).
      { rewrite Hpast'. unfold keep_last, HISTORY_LIMIT. by rewrite Hsnaps, Hlen. }
      split; [done|]. split; [|done].
      rewrite Hdrop, length_drop, Hsnaps, Hlen. done.
    + rewrite Hpast. simpl. lia.
Qed.

End History.

(** ** Schedule keys *)

Lemma append_cons (ch : ascii) (a b : string) : String ch a +:+ b = String ch (a +:+ b).
Proof. reflexivity. Qed.

Lemma append_nil (b : string) : "" +:+ b = b.
Proof. reflexivity. Qed.

Lemma has_char_app (c : ascii) (a b : string) :
  has_char c (a +:+ b) <-> has_char c a ∨ has_char c b.
Proof.
  induction a as [|c' a IH]; [rewrite append_nil; simpl; tauto|].
  rewrite append_cons. simpl. rewrite IH. tauto.
Qed.

Lemma append_assoc (a b c : string) : (a +:+ b) +:+ c = a +:+ (b +:+ c).
Proof.
  induction a as [|x a IH]; [done|]. by rewrite !append_cons, IH.
Qed.

(** Cutting a string at its last occurrence of [u]. *)
Lemma append_inv_last (u : ascii) (a a' x x' : string) :
  ¬ has_char u x -> ¬ has_char u x' ->
  a +:+ String u x = a' +:+ String u x' -> a = a' ∧ x = x'.
Proof.
  intros Hx Hx'. revert a'.
  induction a as [|ch a IH]; intros [|ch' a']; rewrite ?append_nil, ?append_cons.
  - by intros [= ->].
  - intros [= <- ->]. destruct Hx. apply has_char_app. right. by left.
  - intros [= -> <-]. destruct Hx'. apply has_char_app. right. by left.
  - intros [= -> Heq]. apply IH in Heq as [-> ->]. done.
Qed.

Lemma pretty_N_char_no_underscore (x : N) : pretty_N_char x ≠ "_"%char.
Proof. unfold pretty_N_char. by repeat case_match. Qed.

Lemma pretty_N_go_no_underscore (x : N) (s : string) :
  ¬ has_char "_" s -> ¬ has_char "_" (pretty_N_go x s).
Proof.
  revert s. induction (N.lt_wf_0 x) as [x _ IH]; intros s Hs.
  assert (x = 0 ∨ 0 < x)%N as [->|Hpos] by lia.
  - by rewrite pretty_N_go_0.
  - rewrite pretty_N_go_step by done. apply IH.
    + by apply N.div_lt.
    + simpl. intros [Hc|Hc]; [|done]. by apply pretty_N_char_no_underscore in Hc.
Qed.

Lemma show_nat_no_underscore (n : nat) : ¬ has_char "_" (show_nat n).
Proof.
  unfold show_nat, pretty, pretty_nat, pretty, pretty_N.
  case_decide.
  - simpl. intros [Hc|Hc]; [discriminate Hc|exact Hc].
  - apply pretty_N_go_no_underscore. simpl. tauto.
Qed.

Lemma mkKey_split (c : string) (d i : nat) :
  mkKey c d i = (c +:+ String "_" (show_nat d)) +:+ String "_" (show_nat i).
Proof. unfold mkKey. by rewrite append_assoc. Qed.

Lemma mkKey_inj (c c' : string) (d d' i i' : nat) :
  mkKey c d i = mkKey c' d' i' -> c = c' ∧ d = d' ∧ i = i'.
Proof.
  rewrite !mkKey_split. intros Heq.
  apply append_inv_last in Heq as [Heq Hi]; [|apply show_nat_no_underscore..].
  apply append_inv_last in Heq as [Hc Hd]; [|apply show_nat_no_underscore..].
  unfold show_nat in *.
  by apply (inj pretty) in Hi, Hd.
Qed.

Lemma prefix_append (a b : string) : String.prefix a (a +:+ b) = true.
Proof.
  induction a as [|ch a IH]; [by destruct b|].
  rewrite append_cons. simpl. by destruct (ascii_dec ch ch).
Qed.

Lemma split_on_cons (sep : ascii) (s : string) :
  exists h t, split_on sep s = h :: t.
Proof.
  destruct s as [|ch s]; simpl; [by eexists _, _|].
  destruct (split_on sep s); [by eexists _, _|].
  case_decide; by eexists _, _.
Qed.

Lemma join_with_cons (sep p : string) (q : string) (rest : list string) :
  join_with sep (p :: q :: rest) = p +:+ sep +:+ join_with sep (q :: rest).
Proof. reflexivity. Qed.

(** [s.split(sep).join(sep)] is [s]. *)
Lemma join_split_on (sep : ascii) (s : string) :
  join_with (String sep "") (split_on sep s) = s.
Proof.
  induction s as [|ch s IH]; [done|].
  cbn [split_on]. destruct (split_on sep s) as [|h t]; [simpl in *; by subst|].
  case_decide as Hch.
  - subst ch. rewrite join_with_cons, IH. reflexivity.
  - destruct t as [|q t].
    + simpl in *. by rewrite IH.
    + rewrite join_with_cons in *. rewrite append_cons. by rewrite IH.
Qed.

Lemma join_with_app (sep : string) (l1 l2 : list string) :
  l1 ≠ [] -> l2 ≠ [] ->
  join_with sep (l1 ++ l2) = join_with sep l1 +:+ sep +:+ join_with sep l2.
Proof.
  intros Hl1 Hl2. induction l1 as [|p l1 IH]; [done|].
  destruct l1 as [|q l1].
  - destruct l2 as [|q l2]; [done|]. reflexivity.
  - rewrite <- app_comm_cons. cbn [app] in *.
    rewrite !join_with_cons, IH by done. by rewrite !append_assoc.
Qed.

(** A key that reads as a key of class [c] starts with [c_]. *)
Lemma class_of_key_prefix (k c : string) :
  class_of_key k = Some c -> String.prefix (c +:+ "_") k = true.
Proof.
  unfold class_of_key, parseKey.
  destruct (reverse (split_on "_" k)) as [|p [|d [|c1 cs]]] eqn:Hparts; try done.
  destruct (read_nat p) as [period|]; [|done]. destruct (read_nat d) as [day|]; [|done].
  cbn [mbind option_bind]. intros [= <-].
  assert (Hsplit : split_on "_" k = reverse (c1 :: cs) ++ [d; p]).
  { apply (inj reverse). rewrite Hparts, reverse_app, reverse_involutive. done. }
  pose proof (join_split_on "_" k) as Hjoin. rewrite Hsplit in Hjoin.
  rewrite join_with_app in Hjoin.
  - rewrite <- Hjoin, <- append_assoc. apply prefix_append.
  - rewrite reverse_cons. by destruct (reverse cs).
  - done.
Qed.

(** ** The schedule store under [appReducer] *)

Section ScheduleStore.
Context `{imports : Imports}.

(** The deletion loop, key by key. *)
Lemma delete_each_fold (test : string -> LessonData -> bool) (ks : list string)
    (acc : Schedule) (k : string) :
  foldl (fun acc k =>
           match acc !! k with
           | Some l => if test k l then delete k acc else acc
           | None => acc
           end) acc ks !! k =
  match acc !! k with
  | Some l => if decide (k ∈ ks) then (if test k l then None else Some l) else Some l
  | None => None
  end.
Proof.
  revert acc. induction ks as [|k0 ks IH]; intros acc; cbn [foldl].
  - destruct (acc !! k); [|done]. by rewrite decide_False by apply not_elem_of_nil.
  - rewrite IH. clear IH.
    destruct (decide (k0 = k)) as [->|Hne].
    + destruct (acc !! k) as [l|] eqn:Hk.
      * rewrite (decide_True (P := k ∈ k :: ks)) by apply list_elem_of_here.
        destruct (test k l) eqn:Htest.
        -- by rewrite lookup_delete_eq.
        -- rewrite Hk. case_decide; by rewrite ?Htest.
      * by rewrite Hk.
    + assert (Hsame : (match acc !! k0 with
                       | Some l => if test k0 l then delete k0 acc else acc
                       | None => acc
                       end) !! k = acc !! k).
      { destruct (acc !! k0) as [l0|]; [|done].
        destruct (test k0 l0); [by rewrite lookup_delete_ne|done]. }
      rewrite Hsame. destruct (acc !! k) as [l|]; [|done].
      destruct (decide (k ∈ ks)).
      * by rewrite decide_True by (by apply list_elem_of_further).
      * by rewrite decide_False by (by apply not_elem_of_cons).
Qed.

Lemma delete_each_lookup (test : string -> LessonData -> bool) (o : Schedule)
    (k : string) (l : LessonData) :
  delete_each test o !! k = Some l <-> o !! k = Some l ∧ test k l = false.
Proof.
  unfold delete_each. rewrite delete_each_fold.
  destruct (o !! k) as [l'|] eqn:Hk; [|by split; [|intros [? _]]].
  rewrite decide_True.
  - destruct (test k l') eqn:Htest; split.
    + discriminate.
    + intros [[= ->] Hl]. congruence.
    + intros [= ->]. done.
    + by intros [? _].
  - apply list_elem_of_fmap. exists (k, l'). split; [done|].
    by apply elem_of_map_to_list.
Qed.

(** C7. Deleting a teacher removes, in the same transition, exactly the
    schedule entries whose [teacherId] is the deleted id, and deleting a
    class exactly those whose key starts with the class id followed by
    [_]; afterwards the teacher (the class) is gone from the list, no
    schedule entry has the teacher as its [teacherId], and no schedule
    entry has a key of the class. *)
Theorem delete_prunes_schedule (state : AppState) (id : string) :
  (exists state',
      appReducer state (DELETE_TEACHER id) = Ok (Changed state') ∧
      (forall k l, schedule state' !! k = Some l <->
                   schedule state !! k = Some l ∧ teacherId l ≠ id) ∧
      (forall k l, schedule state' !! k = Some l -> teacherId l ≠ id) ∧
      id ∉ map teacher_id (teachers state')) ∧
  (exists state',
      appReducer state (DELETE_CLASS id) = Ok (Changed state') ∧
      (forall k l, schedule state' !! k = Some l <->
                   schedule state !! k = Some l ∧ String.prefix (id +:+ "_") k = false) ∧
      (forall k l, schedule state' !! k = Some l -> class_of_key k ≠ Some id) ∧
      id ∉ map class_id (classes state')).
Proof.
  split.
  - eexists. split; [reflexivity|]. simpl.
    assert (Hiff : forall k l,
               delete_each (teaches id) (schedule state) !! k = Some l <->
               schedule state !! k = Some l ∧ teacherId l ≠ id).
    { intros k l. rewrite delete_each_lookup. unfold teaches.
      by rewrite bool_decide_eq_false. }
    split; [exact Hiff|]. split.
    + intros k l Hk. by apply Hiff in Hk as [_ ?].
    + intros Hin. apply list_elem_of_fmap in Hin as (t & Hid & Ht).
      apply list_elem_of_filter in Ht as [Hne _]. by apply Hne.
  - eexists. split; [reflexivity|]. simpl.
    assert (Hiff : forall k l,
               delete_each (under_class id) (schedule state) !! k = Some l <->
               schedule state !! k = Some l ∧ String.prefix (id +:+ "_") k = false).
    { intros k l. by rewrite delete_each_lookup. }
    split; [exact Hiff|]. split.
    + intros k l Hk Hclass. apply Hiff in Hk as [_ Hprefix].
      apply class_of_key_prefix in Hclass. congruence.
    + intros Hin. apply list_elem_of_fmap in Hin as (c & Hid & Hc).
      apply list_elem_of_filter in Hc as [Hne _]. by apply Hne.
Qed.

(** [MOVE_LESSON] between keys that name no member of [Object.prototype]:
    without a placement at the source key the state comes back untouched;
    with a placement at the target key the two placements are swapped;
    otherwise the source placement goes to the target key and the source
    key is removed. The number of placements is the same before and after. *)
Lemma move_lesson_cases (state : AppState) (fromKey toKey : string)
    (ordinary : own_keys fromKey toKey) :
  (schedule state !! fromKey = None ->
     appReducer state (MOVE_LESSON fromKey toKey ordinary) = Ok Unchanged) ∧
  (forall item other,
     schedule state !! fromKey = Some item ->
     schedule state !! toKey = Some other ->
     exists state',
       appReducer state (MOVE_LESSON fromKey toKey ordinary) = Ok (Changed state') ∧
       schedule state' !! toKey = Some item ∧
       schedule state' !! fromKey = Some other ∧
       (forall k, k ≠ fromKey -> k ≠ toKey -> schedule state' !! k = schedule state !! k) ∧
       size (schedule state') = size (schedule state)) ∧
  (forall item,
     schedule state !! fromKey = Some item ->
     schedule state !! toKey = None ->
     exists state',
       appReducer state (MOVE_LESSON fromKey toKey ordinary) = Ok (Changed state') ∧
       schedule state' !! toKey = Some item ∧
       schedule state' !! fromKey = None ∧
       (forall k, k ≠ fromKey -> k ≠ toKey -> schedule state' !! k = schedule state !! k) ∧
       size (schedule state') = size (schedule state)).
Proof.
  split; [|split].
  - intros Hfrom. simpl. by rewrite Hfrom.
  - intros item other Hfrom Hto. simpl. rewrite Hfrom, Hto.
    eexists. split; [reflexivity|]. simpl.
    split; [|split; [|split]].
    + destruct (decide (fromKey = toKey)) as [->|Hne].
      * rewrite lookup_insert_eq. congruence.
      * by rewrite lookup_insert_ne, lookup_insert_eq.
    + by rewrite lookup_insert_eq.
    + intros k Hk1 Hk2. by rewrite !lookup_insert_ne.
    + rewrite map_size_insert_Some.
      * by rewrite map_size_insert_Some.
      * destruct (decide (toKey = fromKey)) as [->|Hne].
        -- rewrite lookup_insert_eq. eauto.
        -- rewrite lookup_insert_ne by done. eauto.
  - intros item Hfrom Hto. simpl. rewrite Hfrom, Hto.
    assert (Hne : fromKey ≠ toKey) by congruence.
    eexists. split; [reflexivity|]. simpl.
    split; [|split; [|split]].
    + by rewrite lookup_delete_ne, lookup_insert_eq.
    + by rewrite lookup_delete_eq.
    + intros k Hk1 Hk2. by rewrite lookup_delete_ne, lookup_insert_ne.
    + rewrite map_size_delete_Some.
      * by rewrite map_size_insert_None.
      * rewrite lookup_insert_ne by done. eauto.
Qed.

Lemma inherited_proto (k : string) : inherited k = false -> String.eqb k "__proto__" = false.
Proof.
  intros Hk. destruct (String.eqb_spec k "__proto__") as [->|]; [|done].
  by vm_compute in Hk.
Qed.

Lemma readProperty_own (sched : Schedule) (k : string) :
  inherited k = false -> readProperty (objectOf sched) k = Lesson <$> sched !! k.
Proof.
  intros Hk. unfold readProperty, objectOf. simpl. rewrite lookup_fmap, Hk.
  by destruct (sched !! k).
Qed.

Lemma writeProperty_own (own : gmap string Cell) (k : string) (v : Cell) :
  inherited k = false ->
  writeProperty (mkObject own None) k v = mkObject (<[k := v]> own) None.
Proof.
  intros Hk. unfold writeProperty. simpl. rewrite (inherited_proto k Hk).
  by destruct (own !! k).
Qed.

(** On keys that name no member of [Object.prototype], [appReducer] does
    what the case body does on the schedule object: it returns the state
    when the body returns, and the state with the lessons of the object the
    body builds otherwise. *)
Lemma move_lesson_own_keys (state : AppState) (fromKey toKey : string)
    (ordinary : own_keys fromKey toKey) :
  match moveLesson (schedule state) fromKey toKey with
  | None => appReducer state (MOVE_LESSON fromKey toKey ordinary) = Ok Unchanged
  | Some o =>
      exists sched',
        o = objectOf sched' ∧
        appReducer state (MOVE_LESSON fromKey toKey ordinary)
        = Ok (Changed (with_schedule state sched'))
  end.
Proof.
  destruct ordinary as [Hfrom Hto]. unfold moveLesson.
  rewrite !readProperty_own by done. simpl.
  destruct (schedule state !! fromKey) as [item|]; simpl; [|done].
  unfold objectOf. rewrite writeProperty_own by done.
  destruct (schedule state !! toKey) as [other|]; simpl.
  - rewrite writeProperty_own by done.
    eexists. split; [|reflexivity]. unfold objectOf. by rewrite !fmap_insert.
  - eexists. split; [|reflexivity].
    unfold objectOf, deleteProperty. simpl. by rewrite fmap_delete, fmap_insert.
Qed.

(** C10. [MOVE_LESSON] with a key that names a member of
    [Object.prototype] does not follow the three cases. With [constructor]
    as the source key and an empty schedule, the source key holds no
    placement, yet the case body does not return the state: it stores the
    inherited member under the target key, so that the new schedule has one
    entry where the old one had none. With [constructor] as the target key,
    free in a schedule of one lesson, the body does not remove the source
    key: it stores the inherited member there, and the new schedule has two
    entries. *)
Theorem move_lesson_inherited_key :
  ((∅ : Schedule) !! "constructor" = None ∧
   moveLesson ∅ "constructor" "c1_0_0"
   = Some (mkObject {["c1_0_0" := Member "constructor"]} None)) ∧
  (({["c1_0_0" := sample_lesson]} : Schedule) !! "constructor" = None ∧
   moveLesson {["c1_0_0" := sample_lesson]} "c1_0_0" "constructor"
   = Some (mkObject (<["c1_0_0" := Member "constructor"]>
                       {["constructor" := Lesson sample_lesson]}) None)).
Proof.
  split; (split; [reflexivity|vm_compute; reflexivity]).
Qed.

End ScheduleStore.

(** ** Lists *)

Lemma NoDup_fmap_filter {A B} (f : A -> B) (P : A -> Prop) `{!forall x, Decision (P x)}
    (l : list A) :
  NoDup (f <$> l) -> NoDup (f <$> filter P l).
Proof.
  induction l as [|x l IH]; [done|].
  rewrite fmap_cons, NoDup_cons. intros [Hnotin Hnodup].
  rewrite filter_cons. case_decide; [|by apply IH].
  rewrite fmap_cons, NoDup_cons. split; [|by apply IH].
  intros Hin. apply Hnotin.
  apply list_elem_of_fmap in Hin as (y & -> & Hy).
  apply list_elem_of_filter in Hy as [_ Hy].
  apply list_elem_of_fmap. by exists y.
Qed.

(** ** Time Grid Calculator *)

Section TimeGrid.
Variable ts : TimeSettings.
Let lbb := lessonsBeforeBreak ts.
Let total := totalLessons ts.

Lemma div_step_multiple (i : Z) :
  (1 <= lbb -> 1 <= i -> i mod lbb = 0 -> i / lbb = (i - 1) / lbb + 1)%Z.
Proof.
  intros Hlbb Hi Hmod.
  pose proof (Z.div_mod i lbb ltac:(lia)) as Hi_eq.
  pose proof (Z.div_mod (i - 1) lbb ltac:(lia)) as Hp_eq.
  pose proof (Z.mod_pos_bound (i - 1) lbb ltac:(lia)) as Hp_bound.
  rewrite Hmod in Hi_eq. nia.
Qed.

Lemma div_step_other (i : Z) :
  (1 <= lbb -> 1 <= i -> i mod lbb ≠ 0 -> i / lbb = (i - 1) / lbb)%Z.
Proof.
  intros Hlbb Hi Hmod.
  pose proof (Z.div_mod i lbb ltac:(lia)) as Hi_eq.
  pose proof (Z.mod_pos_bound i lbb ltac:(lia)) as Hi_bound.
  pose proof (Z.div_mod (i - 1) lbb ltac:(lia)) as Hp_eq.
  pose proof (Z.mod_pos_bound (i - 1) lbb ltac:(lia)) as Hp_bound.
  nia.
Qed.

(** A lesson never sits at the position of a break. *)
Lemma position_is_lesson (i : Z) :
  (1 <= lbb -> 1 <= i -> (position_of ts i + 1) mod (lbb + 1) ≠ 0)%Z.
Proof.
  intros Hlbb Hi. unfold position_of; fold lbb.
  pose proof (Z.div_mod (i - 1) lbb ltac:(lia)) as Hp_eq.
  pose proof (Z.mod_pos_bound (i - 1) lbb ltac:(lia)) as Hp_bound.
  set (q := ((i - 1) / lbb)%Z) in *. set (r := ((i - 1) mod lbb)%Z) in *.
  replace (i - 1 + q + 1)%Z with ((r + 1) + q * (lbb + 1))%Z by nia.
  rewrite Z.mod_add by lia. rewrite Z.mod_small by lia. lia.
Qed.

(** The slot after lesson [i] is at the position of a break when [i] is a
    multiple of [lessonsBeforeBreak]. *)
Lemma position_then_break (i : Z) :
  (1 <= lbb -> 1 <= i -> i mod lbb = 0 -> (position_of ts i + 2) mod (lbb + 1) = 0)%Z.
Proof.
  intros Hlbb Hi Hmod. unfold position_of; fold lbb.
  pose proof (div_step_multiple i Hlbb Hi Hmod) as Hq.
  pose proof (Z.div_mod i lbb ltac:(lia)) as Hi_eq.
  rewrite Hmod in Hi_eq.
  set (q := (i / lbb)%Z) in *.
  replace (i - 1 + (i - 1) / lbb + 2)%Z with (0 + q * (lbb + 1))%Z by nia.
  rewrite Z.mod_add by lia. done.
Qed.

Lemma slots_from_lessons (n : nat) (i : Z) (idx : nat) (t : Z) :
  length (lessonSlots (slots_from ts n i idx t)) = n.
Proof.
  revert i idx t. induction n as [|n IH]; intros i idx t; [done|].
  cbn [slots_from]. unfold lessonSlots in *.
  case_decide.
  - rewrite filter_cons_True by done. rewrite filter_cons_False by done.
    simpl. by rewrite IH.
  - rewrite filter_cons_True by done. simpl. by rewrite IH.
Qed.

Lemma slots_from_contiguous (n : nat) (i : Z) (idx : nat) (t : Z) :
  contiguous_from t (slots_from ts n i idx t).
Proof.
  revert i idx t. induction n as [|n IH]; intros i idx t; [done|].
  cbn [slots_from]. case_decide; simpl; auto.
Qed.

Lemma slots_from_durations (n : nat) (i : Z) (idx : nat) (t : Z) :
  Forall (fun s => slotEnd s = (slotStart s + slotDuration ts s)%Z) (slots_from ts n i idx t).
Proof.
  revert i idx t. induction n as [|n IH]; intros i idx t; [constructor|].
  cbn [slots_from]. case_decide; repeat constructor; auto.
Qed.

Lemma slots_from_index (n : nat) (i : Z) (idx : nat) (t : Z) (j : nat) (s : TimeSlot) :
  slots_from ts n i idx t !! j = Some s -> index s = idx + j.
Proof.
  revert i idx t j. induction n as [|n IH]; intros i idx t j; [done|].
  cbn [slots_from]. case_decide.
  - destruct j as [|[|j]]; simpl.
    + intros [= <-]. simpl. lia.
    + intros [= <-]. simpl. lia.
    + intros Hj. apply IH in Hj. lia.
  - destruct j as [|j]; simpl.
    + intros [= <-]. simpl. lia.
    + intros Hj. apply IH in Hj. lia.
Qed.

Lemma loop_invariant_next (n : nat) (i : Z) (idx : nat) :
  loop_invariant ts (S (S n)) i idx ->
  loop_invariant ts (S n) (i + 1)
    (if decide (i mod lbb = 0 ∧ i < total)%Z then S (S idx) else S idx).
Proof.
  unfold loop_invariant, position_of; fold lbb total. intros (Hlbb & Hi & Hidx & Hn).
  replace (i + 1 - 1)%Z with i by lia.
  case_decide as Hbreak.
  - destruct Hbreak as [Hmod _].
    rewrite (div_step_multiple i) by done. lia.
  - assert (Hmod : (i mod lbb ≠ 0)%Z) by lia.
    rewrite (div_step_other i) by done. lia.
Qed.

Lemma slots_from_breaks (n : nat) (i : Z) (idx : nat) (t : Z) (j : nat) (s : TimeSlot) :
  loop_invariant ts n i idx ->
  slots_from ts n i idx t !! j = Some s ->
  (isBreak s = true <-> (Z.of_nat (idx + j) + 1) mod (lbb + 1) = 0)%Z.
Proof.
  revert i idx t j. induction n as [|n IH]; intros i idx t j Hinv; [done|].
  assert (Hhere : ((Z.of_nat idx + 1) mod (lbb + 1) ≠ 0)%Z).
  { destruct Hinv as (Hlbb & Hi & -> & _). by apply position_is_lesson. }
  assert (Hfirst : forall l, isBreak l = false ->
             (isBreak l = true <-> (Z.of_nat (idx + 0) + 1) mod (lbb + 1) = 0)%Z).
  { intros l Hl. replace (idx + 0) with idx by lia. rewrite Hl. split; [done|lia]. }
  destruct n as [|n].
  { (* the last lesson: no break follows *)
    cbn [slots_from]. rewrite decide_False.
    - destruct j as [|j]; [|done]. cbn [lookup list_lookup].
      intros [= <-]. by apply Hfirst.
    - destruct Hinv as (_ & _ & _ & Hn). lia. }
  pose proof (loop_invariant_next _ _ _ Hinv) as Hnext.
  remember (S n) as m eqn:Hm. cbn [slots_from]. fold lbb total.
  destruct (decide (i mod lbb = 0 ∧ i < total)%Z) as [[Hmod Hlt]|Hno].
  - destruct j as [|[|j]]; cbn [lookup list_lookup].
    + intros [= <-]. by apply Hfirst.
    + intros [= <-]. cbn [isBreak breakSlot]. split; [intros _|done].
      destruct Hinv as (Hlbb & Hi & Hidx & _).
      replace (Z.of_nat (idx + 1) + 1)%Z with (position_of ts i + 2)%Z by lia.
      by apply position_then_break.
    + intros Hj. apply (IH _ _ _ _ Hnext) in Hj.
      by replace (idx + S (S j)) with (S (S idx) + j) by lia.
  - destruct j as [|j]; cbn [lookup list_lookup].
    + intros [= <-]. by apply Hfirst.
    + intros Hj. apply (IH _ _ _ _ Hnext) in Hj.
      by replace (idx + S j) with (S idx + j) by lia.
Qed.

Lemma slots_from_length (n : nat) (i : Z) (idx : nat) (t : Z) :
  loop_invariant ts (S n) i idx ->
  (Z.of_nat (length (slots_from ts (S n) i idx t))
   = total + (total - 1) / lbb - position_of ts i)%Z.
Proof.
  revert i idx t. induction n as [|n IH]; intros i idx t Hinv.
  - cbn [slots_from]. destruct Hinv as (_ & _ & _ & Hn).
    rewrite decide_False by lia. simpl. unfold position_of; fold lbb.
    replace i with total by lia. lia.
  - pose proof (loop_invariant_next _ _ _ Hinv) as Hnext.
    destruct Hinv as (Hlbb & Hi & Hidx & Hn).
    remember (S n) as m. cbn [slots_from]. fold lbb total.
    destruct (decide (i mod lbb = 0 ∧ i < total)%Z) as [[Hmod Hlt]|Hno].
    + cbn [length]. rewrite !Nat2Z.inj_succ, (IH _ _ _ Hnext).
      unfold position_of; fold lbb. replace (i + 1 - 1)%Z with i by lia.
      rewrite (div_step_multiple i) by done. lia.
    + cbn [length]. rewrite !Nat2Z.inj_succ, (IH _ _ _ Hnext).
      unfold position_of; fold lbb. replace (i + 1 - 1)%Z with i by lia.
      rewrite (div_step_other i) by (done || lia). lia.
Qed.

Lemma lessons_and_breaks (slots : list TimeSlot) :
  length (lessonSlots slots) + length (breakSlots slots) = length slots.
Proof.
  unfold lessonSlots, breakSlots.
  induction slots as [|s slots IH]; [done|].
  destruct (isBreak s) eqn:Hs.
  - rewrite filter_cons_False by congruence. rewrite filter_cons_True by done.
    simpl. lia.
  - rewrite filter_cons_True by done. rewrite filter_cons_False by congruence.
    simpl. lia.
Qed.

Lemma contiguous_lookup (t : Z) (slots : list TimeSlot) (j : nat) (a b : TimeSlot) :
  contiguous_from t slots ->
  slots !! j = Some a -> slots !! S j = Some b -> slotStart b = slotEnd a.
Proof.
  revert t j. induction slots as [|s slots IH]; intros t j; [done|].
  intros [_ Hrest]. destruct j as [|j]; simpl.
  - intros [= ->]. destruct slots as [|s' slots]; [done|].
    intros [= ->]. by destruct Hrest.
  - by apply (IH (slotEnd s)).
Qed.

(** The lesson slots that [computeSlots] returns have distinct indexes, as
    the optimizer needs them. *)
Lemma computeSlots_indexes (slots : list TimeSlot) :
  computeSlots ts = Ok slots -> NoDup (map index (assignable slots)).
Proof.
  unfold computeSlots. destruct (parseTime (startTime ts)) as [t0|]; [|done].
  case_decide; [|done]. intros [= <-].
  unfold assignable. apply NoDup_fmap_filter.
  apply NoDup_alt. intros i j x. rewrite !list_lookup_fmap.
  destruct (slots_from ts _ 1 0 t0 !! i) as [a|] eqn:Ha; [|done].
  destruct (slots_from ts _ 1 0 t0 !! j) as [b|] eqn:Hb; [|done].
  apply slots_from_index in Ha, Hb. simpl. intros [= <-] [= Hx]. lia.
Qed.

(** C6. For valid settings [computeSlots] returns a slot sequence with
    exactly [totalLessons] lesson slots; the slot at (0-based) position
    [j] is a break exactly when [j + 1] is a multiple of
    [lessonsBeforeBreak + 1], that is, after every [lessonsBeforeBreak]
    lessons, the last lesson being followed by nothing: there are
    [(totalLessons - 1) / lessonsBeforeBreak] breaks, none at all when
    [lessonsBeforeBreak >= totalLessons]; the first slot starts at
    [startTime], every slot starts where the previous one ends, a lesson
    lasts [lessonDuration] minutes and a break [breakDuration]. *)
Theorem computeSlots_grid :
  valid_settings ts ->
  exists slots t0,
    computeSlots ts = Ok slots ∧
    parseTime (startTime ts) = Some t0 ∧
    length (lessonSlots slots) = Z.to_nat total ∧
    Z.of_nat (length (breakSlots slots)) = ((total - 1) / lbb)%Z ∧
    (forall j s, slots !! j = Some s ->
       index s = j ∧
       (isBreak s = true <-> (Z.of_nat j + 1) mod (lbb + 1) = 0)%Z ∧
       slotEnd s = (slotStart s + slotDuration ts s)%Z) ∧
    (lbb >= total -> breakSlots slots = [])%Z ∧
    (forall s, slots !! 0 = Some s -> slotStart s = t0) ∧
    (forall j a b, slots !! j = Some a -> slots !! S j = Some b -> slotStart b = slotEnd a).
Proof.
  intros (Hld & Hbd & Hlbb & Htotal & [t0 Ht0]).
  unfold computeSlots. rewrite Ht0, decide_True by done.
  set (slots := slots_from ts (Z.to_nat (totalLessons ts)) 1 0 t0).
  assert (Hn : exists n, Z.to_nat (totalLessons ts) = S n).
  { exists (Z.to_nat (totalLessons ts) - 1). lia. }
  destruct Hn as [n Hn].
  assert (Hinv : loop_invariant ts (S n) 1 0).
  { unfold loop_invariant, position_of. fold lbb total.
    repeat split; lia. }
  assert (Hlessons : length (lessonSlots slots) = Z.to_nat total)
    by apply slots_from_lessons.
  assert (Hbreaks : Z.of_nat (length (breakSlots slots)) = ((total - 1) / lbb)%Z).
  { pose proof (lessons_and_breaks slots) as Hsum.
    pose proof (slots_from_length n 1 0 t0 Hinv) as Hlen.
    rewrite <- Hn in Hlen. fold slots in Hlen.
    unfold position_of in Hlen; fold lbb in Hlen.
    rewrite Z.sub_diag, Z.div_0_l in Hlen by lia.
    lia. }
  exists slots, t0.
  do 4 (split; [done|]). split; [|split; [|split]].
  - intros j s Hs. split; [|split].
    + by apply slots_from_index in Hs.
    + pose proof (slots_from_breaks (S n) 1 0 t0 j s Hinv) as Hb.
      rewrite <- Hn in Hb. by apply Hb.
    + pose proof (slots_from_durations (Z.to_nat (totalLessons ts)) 1 0 t0) as Hd.
      rewrite Forall_lookup in Hd. by eapply Hd.
  - intros Hge. apply length_zero_iff_nil.
    rewrite Z.div_small in Hbreaks by lia. lia.
  - intros s Hs.
    pose proof (slots_from_contiguous (Z.to_nat (totalLessons ts)) 1 0 t0) as Hc.
    fold slots in Hc. destruct slots; [done|]. injection Hs as ->. by destruct Hc.
  - intros j a b. apply contiguous_lookup with (t := t0). apply slots_from_contiguous.
Qed.

End TimeGrid.

(** ** State Reconciler and [initData] *)

Section Reconciler.

Lemma same_kind_refl (j : Json) : same_kind j j = true.
Proof. by destruct j. Qed.

Lemma assoc_merged {A} (g : string * A -> A) (fields rest : list (string * A))
    (k : string) (v : A) :
  NoDup fields.*1 ->
  (k, v) ∈ fields ->
  assoc k (map (fun kv => (kv.1, g kv)) fields ++ rest) = Some (g (k, v)).
Proof.
  induction fields as [|[k0 v0] fields IH]; [by intros _ ?%elem_of_nil|].
  rewrite fmap_cons, NoDup_cons. intros [Hnotin Hnodup] Hin. simpl.
  apply elem_of_cons in Hin as [[= <- <-]|Hin].
  - by rewrite decide_True.
  - rewrite decide_False; [by apply IH|].
    intros ->. apply Hnotin. apply list_elem_of_fmap. by exists (k, v).
Qed.

Lemma has_shape_refl (d : Json) : unique_keys d = true -> has_shape d d = true.
Proof.
  induction d as [| | | | items IH | fields IH] using Json_nested_ind; try done.
  simpl. intros [Hnodup Hfields]%andb_prop.
  apply bool_decide_eq_true in Hnodup.
  apply forallb_forall. intros [k v] Hin%list_elem_of_In.
  pose proof (assoc_merged (fun kv => kv.2) fields [] k v Hnodup Hin) as Hassoc.
  rewrite app_nil_r in Hassoc.
  replace (map (fun kv : string * Json => (kv.1, kv.2)) fields) with fields in Hassoc.
  - cbn [fst snd] in *. rewrite Hassoc.
    rewrite Forall_forall in IH. apply (IH (k, v) Hin).
    rewrite forallb_forall in Hfields. by apply (Hfields (k, v)), list_elem_of_In.
  - clear. induction fields as [|[k0 v0] fields IH]; [done|]. simpl. by rewrite <- IH.
Qed.

(** Whatever comes in, the merged value has every field of the default,
    at every depth. *)
Lemma deepMerge_has_shape (d : Json) :
  unique_keys d = true -> forall incoming, has_shape d (deepMergeJson d incoming) = true.
Proof.
  induction d as [| | | | items IH | fields IH] using Json_nested_ind;
    intros Hunique incoming;
    try (simpl; destruct incoming; done).
  destruct incoming as [| | | | |sf]; try (by apply has_shape_refl).
  simpl in Hunique. apply andb_prop in Hunique as [Hnodup Hfields].
  apply bool_decide_eq_true in Hnodup.
  cbn [deepMergeJson has_shape].
  apply forallb_forall. intros [k v] Hin%list_elem_of_In.
  rewrite (assoc_merged
             (fun kv => match assoc kv.1 sf with
                        | Some sv => deepMergeJson kv.2 sv
                        | None => kv.2
                        end) fields _ k v Hnodup Hin).
  cbn [fst snd].
  rewrite forallb_forall in Hfields.
  assert (Hv : unique_keys v = true) by (by apply (Hfields (k, v)), list_elem_of_In).
  rewrite Forall_forall in IH.
  destruct (assoc k sf) as [sv|].
  - by apply (IH (k, v) Hin).
  - by apply has_shape_refl.
Qed.

(** [merge(default, {})] is [default]. *)
Lemma deepMerge_empty (d : Json) : deepMergeJson d (JObj []) = d.
Proof.
  destruct d as [| | | | |fields]; try done.
  simpl. rewrite app_nil_r. f_equal.
  induction fields as [|[k v] fields IH]; [done|]. simpl. by rewrite IH.
Qed.

Context {St : Type}.
Variable DEFAULT : St.
Variable merge : St -> Json -> Result St.
Variable getItem : Result (option string).
Variable JSON_parse : string -> Result Json.

(** [initData] returns, whatever the storage, the parser and the merge
    do; what it returns is the default state unless the merge succeeded. *)
Lemma initData_returns :
  exists h,
    initData DEFAULT merge getItem JSON_parse = Ok h ∧
    past h = [] ∧ future h = [] ∧
    (present h = DEFAULT ∨
     exists text parsed,
       getItem = Ok (Some text) ∧ text ≠ "" ∧ JSON_parse text = Ok parsed ∧
       merge DEFAULT parsed = Ok (present h)).
Proof.
  unfold initData, initData_try.
  destruct getItem as [[text|]|e]; simpl; [|eauto 10..].
  destruct (decide (text = "")) as [->|Hne]; simpl; [eauto 10|].
  destruct (JSON_parse text) as [parsed|e] eqn:Hparse; simpl; [|eauto 10].
  destruct (merge DEFAULT parsed) as [merged|e] eqn:Hmerge; simpl; [|eauto 10].
  eexists. split; [done|]. do 2 (split; [done|]). right. by exists text, parsed.
Qed.

Lemma initData_merged (text : string) (parsed : Json) (merged : St) :
  getItem = Ok (Some text) -> text ≠ "" -> JSON_parse text = Ok parsed ->
  merge DEFAULT parsed = Ok merged ->
  initData DEFAULT merge getItem JSON_parse = Ok (mkHistory [] merged []).
Proof.
  intros Hget Hne Hparse Hmerge. unfold initData, initData_try.
  rewrite Hget. cbn [mbind Result_bind]. rewrite decide_False by done.
  rewrite Hparse. cbn [mbind Result_bind]. rewrite Hmerge. done.
Qed.

End Reconciler.

Section InitialState.
Context `{imports : Imports}.
Variable getItem : Result (option string).
Variable JSON_parse : string -> Result Json.

Lemma default_unique_keys : unique_keys (encode DEFAULT_STATE) = true.
Proof. vm_compute. reflexivity. Qed.

(** C9. [initData] never throws. When nothing is stored (or reading the
    storage fails, or the stored text is empty) and when the stored text
    does not parse, the state is the default state, untouched; otherwise
    it is the parsed payload merged over the default state. In every case
    the history is empty and the state has every field of the default
    state, at every depth. *)
Theorem initData_never_throws :
  exists h,
    initData (encode DEFAULT_STATE) (fun d p => Ok (deepMergeJson d p)) getItem JSON_parse
      = Ok h ∧
    past h = [] ∧ future h = [] ∧
    has_shape (encode DEFAULT_STATE) (present h) = true ∧
    (getItem = Ok None ∨ getItem = Ok (Some "") ∨ (exists e, getItem = Throw e) ∨
     (exists text e, getItem = Ok (Some text) ∧ JSON_parse text = Throw e) ->
     present h = encode DEFAULT_STATE) ∧
    (forall text parsed,
       getItem = Ok (Some text) -> text ≠ "" -> JSON_parse text = Ok parsed ->
       present h = deepMergeJson (encode DEFAULT_STATE) parsed).
Proof.
  destruct (initData_returns (encode DEFAULT_STATE)
              (fun d p => Ok (deepMergeJson d p)) getItem JSON_parse)
    as (h & Hrun & Hpast & Hfuture & Hpresent).
  exists h. do 3 (split; [done|]). split; [|split].
  - destruct Hpresent as [->|(text & parsed & _ & _ & _ & Hmerged)].
    + apply has_shape_refl, default_unique_keys.
    + assert (Heq : present h = deepMergeJson (encode DEFAULT_STATE) parsed)
        by congruence.
      rewrite Heq. apply deepMerge_has_shape, default_unique_keys.
  - intros Hcase.
    destruct Hpresent as [->|(text & parsed & Hget & Hne & Hparse & _)]; [done|].
    destruct Hcase as [Hc|[Hc|[[e Hc]|(text' & e & Hc & Hfail)]]];
      rewrite Hget in Hc; try discriminate.
    + by injection Hc as ->.
    + injection Hc as <-. rewrite Hparse in Hfail. discriminate.
  - intros text parsed Hget Hne Hparse.
    rewrite (initData_merged _ _ _ _ text parsed (deepMergeJson (encode DEFAULT_STATE) parsed))
      in Hrun by done.
    by injection Hrun as <-.
Qed.

End InitialState.

(** ** Undo and redo over several steps *)

Section UndoRedo.
Context `{imports : Imports}.

Lemma reducer_redo (s : HistoryState) (next : Schedule) (rest : list Schedule) :
  future s = next :: rest ->
  reducer s REDO =
    Ok (mkHistory (past s ++ [schedule (present s)]) (with_schedule (present s) next) rest).
Proof. intros Hfut. unfold reducer. by rewrite Hfut. Qed.

Lemma same_but_schedule_trans (a b c : AppState) :
  same_but_schedule a b -> same_but_schedule b c -> same_but_schedule a c.
Proof.
  unfold same_but_schedule.
  intros (-> & -> & -> & -> & -> & ->) (-> & -> & -> & -> & -> & ->). done.
Qed.

Lemma same_but_schedule_with (a b : AppState) :
  same_but_schedule a b -> with_schedule a (schedule b) = b.
Proof.
  unfold same_but_schedule, with_schedule.
  intros (-> & -> & -> & -> & -> & ->). by destruct b.
Qed.

Lemma time_travel_step (s : HistoryState) (a : Action) :
  isTimeTravel a = true ->
  exists s', reducer s a = Ok s' ∧ timeline s' = timeline s ∧
             same_but_schedule (present s') (present s).
Proof.
  destruct a; try discriminate; intros _.
  - destruct (last (past s)) as [prev|] eqn:Hlast.
    + eexists. split; [by apply reducer_undo|]. split; [|apply with_schedule_frame].
      unfold timeline. simpl.
      pose proof (slice_last _ _ Hlast) as Hslice.
      set (older := take (length (past s) - 1) (past s)) in *.
      rewrite <- Hslice. by rewrite <- app_assoc.
    + exists s. split; [|done]. apply reducer_undo_empty. by apply last_None.
  - destruct (future s) as [|next rest] eqn:Hfut.
    + exists s. split; [|done]. by apply reducer_redo_empty.
    + eexists. split; [by apply reducer_redo|]. split; [|apply with_schedule_frame].
      unfold timeline. simpl. rewrite Hfut, <- app_assoc. done.
Qed.

(** X1. Undo and redo only move along the timeline: whatever the sequence of
    UNDO and REDO actions, it never throws, the snapshots of the history
    state, read from the oldest undoable one to the last redoable one, stay
    the same, in the same order, and nothing of [present] changes but the
    schedule. *)
Theorem time_travel_keeps_timeline (s : HistoryState) (actions : list Action) :
  Forall (fun a => isTimeTravel a = true) actions ->
  exists s',
    dispatch_all s actions = Ok s' ∧
    timeline s' = timeline s ∧
    same_but_schedule (present s') (present s).
Proof.
  intros Hall. revert s. induction Hall as [|a actions Ha _ IH]; intros s.
  - exists s. by repeat split.
  - destruct (time_travel_step s a Ha) as (s1 & Hred & Htl & Hframe).
    destruct (IH s1) as (s' & Hrun & Htl' & Hframe').
    exists s'. split; [|split].
    + cbn [dispatch_all]. by rewrite Hred.
    + by rewrite Htl'.
    + by eapply same_but_schedule_trans.
Qed.

(** X2. The UNDO button is live exactly when UNDO changes the state, and
    likewise for REDO. *)
Theorem can_undo_redo_exact (s : HistoryState) :
  (canUndo s = false <-> reducer s UNDO = Ok s) ∧
  (canRedo s = false <-> reducer s REDO = Ok s).
Proof.
  unfold canUndo, canRedo. rewrite !bool_decide_eq_false. split; split.
  - intros Hlen. apply reducer_undo_empty. destruct (past s); [done|simpl in Hlen; lia].
  - intros Hred Hlen.
    destruct (last (past s)) as [prev|] eqn:Hlast.
    + rewrite (reducer_undo s prev Hlast) in Hred.
      apply (f_equal (fun r => match r with Ok h => length (past h) | Throw _ => 0 end)) in Hred.
      simpl in Hred. rewrite length_take in Hred. lia.
    + apply last_None in Hlast. rewrite Hlast in Hlen. simpl in Hlen. lia.
  - intros Hlen. apply reducer_redo_empty. destruct (future s); [done|simpl in Hlen; lia].
  - intros Hred Hlen.
    destruct (future s) as [|next rest] eqn:Hfut; [simpl in Hlen; lia|].
    rewrite (reducer_redo s next rest Hfut) in Hred.
    apply (f_equal (fun r => match r with Ok h => length (future h) | Throw _ => 0 end)) in Hred.
    simpl in Hred. rewrite Hfut in Hred. simpl in Hred. lia.
Qed.

(** X3. Undo right after a redo gives back the state as it was. *)
Theorem redo_undo_round_trip (s : HistoryState) :
  future s ≠ [] ->
  exists s1, reducer s REDO = Ok s1 ∧ canUndo s1 = true ∧ reducer s1 UNDO = Ok s.
Proof.
  intros Hne. destruct (future s) as [|next rest] eqn:Hfut; [done|].
  eexists. split; [by apply reducer_redo|]. split.
  - unfold canUndo. apply bool_decide_eq_true. simpl. rewrite length_app. simpl. lia.
  - erewrite reducer_undo; [|simpl; apply last_snoc]. simpl.
    rewrite length_app. simpl. replace (length (past s) + 1 - 1) with (length (past s)) by lia.
    rewrite take_app_length, with_schedule_same, <- Hfut. by destruct s.
Qed.

(** An undoable mutation changes nothing of the state but its schedule. *)
Lemma undoable_frame (p newPresent : AppState) (a : Action) :
  isUndoable a = true ->
  appReducer p a = Ok (Changed newPresent) ->
  same_but_schedule newPresent p.
Proof.
  destruct a; try discriminate; intros _; simpl.
  - intros [= <-]. apply with_schedule_frame.
  - destruct (schedule p !! fromKey); [|done]. intros [= <-]. apply with_schedule_frame.
  - destruct (calculateTimeSlots (settings p)) as [slots|]; [|done]. simpl.
    destruct (runOptimization _ _ slots); [|done]. simpl.
    intros [= <-]. apply with_schedule_frame.
  - intros [= <-]. apply with_schedule_frame.
Qed.

Lemma recorded_run_present (s s' : HistoryState) (actions : list Action)
    (snaps : list Schedule) :
  recorded_run s actions snaps s' -> same_but_schedule (present s') (present s).
Proof.
  induction 1 as [s|s a newPresent s1 actions snaps s' Hundoable Happ Hred Hrun IH].
  - done.
  - eapply same_but_schedule_trans; [exact IH|].
    rewrite (reducer_changed s a newPresent), Hundoable in Hred by auto.
    injection Hred as <-. simpl. by eapply undoable_frame.
Qed.

Lemma recorded_run_future (s s' : HistoryState) (actions : list Action)
    (snaps : list Schedule) :
  recorded_run s actions snaps s' -> actions ≠ [] -> future s' = [].
Proof.
  induction 1 as [s|s a newPresent s1 actions snaps s' Hundoable Happ Hred Hrun IH];
    [done|]. intros _.
  destruct actions as [|a' actions]; [|by apply IH].
  inversion Hrun; subst.
  rewrite (reducer_changed s a newPresent), Hundoable in Hred by auto.
  by injection Hred as <-.
Qed.

(** Undoing as many times as [l] has snapshots. *)
Lemma undo_all (l older : list Schedule) (p : AppState) (newer : list Schedule) :
  dispatch_all (mkHistory (older ++ l) p newer) (replicate (length l) UNDO)
  = Ok (mkHistory older (with_schedule p (hd (schedule p) l))
          (tl (l ++ [schedule p]) ++ newer)).
Proof.
  revert p newer. induction l as [|x l IH] using rev_ind; intros p newer.
  - simpl. rewrite app_nil_r. by destruct p.
  - rewrite length_app. simpl. rewrite Nat.add_1_r. cbn [replicate dispatch_all].
    rewrite (reducer_undo _ x) by (simpl; by rewrite app_assoc, last_snoc).
    cbn [mbind Result_bind past present future].
    rewrite app_assoc, length_app. simpl.
    replace (length (older ++ l) + 1 - 1) with (length (older ++ l)) by lia.
    rewrite take_app_length, IH. f_equal. f_equal.
    + destruct l; reflexivity.
    + destruct l; simpl; by rewrite <- ?app_assoc.
Qed.

Lemma last_cons_default {A} (x d : A) (l : list A) :
  List.last l x = List.last (x :: l) d.
Proof.
  revert x d. induction l as [|y l IH]; intros x d; [done|].
  change (List.last (x :: y :: l) d) with (List.last (y :: l) d).
  by rewrite <- !(IH y).
Qed.

(** Redoing as many times as [l] has snapshots. *)
Lemma redo_all (l older : list Schedule) (p : AppState) (rest : list Schedule) :
  dispatch_all (mkHistory older p (l ++ rest)) (replicate (length l) REDO)
  = Ok (mkHistory (older ++ removelast (schedule p :: l))
          (with_schedule p (List.last l (schedule p))) rest).
Proof.
  revert older p. induction l as [|x l IH]; intros older p.
  - simpl. rewrite app_nil_r. by destruct p.
  - cbn [length replicate dispatch_all].
    rewrite (reducer_redo _ x (l ++ rest)) by done.
    cbn [mbind Result_bind past present future].
    rewrite IH. f_equal. f_equal.
    + rewrite <- app_assoc. by destruct l.
    + unfold with_schedule. simpl. f_equal. apply last_cons_default.
Qed.

(** X4. Undo is multi-level. After a run of recorded mutations that does not
    hit the history limit, undoing as many times as there were mutations
    gives back the present state and the undo stack of before the run, and
    redoing as many times gives back the state after the run. *)
Theorem undo_all_redo_all (s s' : HistoryState) (actions : list Action)
    (snaps : list Schedule) :
  recorded_run s actions snaps s' ->
  length (past s) + length actions <= HISTORY_LIMIT ->
  exists s'',
    dispatch_all s' (replicate (length actions) UNDO) = Ok s'' ∧
    past s'' = past s ∧ present s'' = present s ∧
    (actions ≠ [] -> dispatch_all s'' (replicate (length actions) REDO) = Ok s').
Proof.
  intros Hrun Hroom.
  pose proof (recorded_run_present _ _ _ _ Hrun) as Hframe.
  pose proof (recorded_run_future _ _ _ _ Hrun) as Hfuture.
  assert (Hhead : hd (schedule (present s')) snaps = schedule (present s)).
  { destruct Hrun; reflexivity. }
  destruct (recorded_run_past _ _ _ _ Hrun) as (_ & Hsnaps & Hpast); [lia|].
  assert (Hpast' : past s' = past s ++ snaps).
  { rewrite Hpast. unfold keep_last. rewrite length_app, Hsnaps.
    by replace (length (past s) + length actions - HISTORY_LIMIT) with 0 by lia. }
  assert (Hundo : dispatch_all s' (replicate (length actions) UNDO)
    = Ok (mkHistory (past s) (present s)
            (tl (snaps ++ [schedule (present s')]) ++ future s'))).
  { pose proof (undo_all snaps (past s) (present s') (future s')) as Hall.
    rewrite Hhead, (same_but_schedule_with _ _ Hframe), Hsnaps, <- Hpast' in Hall.
    by destruct s'. }
  eexists. split; [exact Hundo|]. split; [done|]. split; [done|].
  intros Hne. rewrite (Hfuture Hne), app_nil_r.
  destruct snaps as [|x snaps']; [by destruct actions|].
  simpl in Hhead. subst x. cbn [app tl].
  assert (Hframe' : same_but_schedule (present s) (present s')).
  { unfold same_but_schedule in *. destruct Hframe as (-> & -> & -> & -> & -> & ->). done. }
  replace (length actions) with (length (snaps' ++ [schedule (present s')]))
    by (rewrite length_app, <- Hsnaps; simpl; lia).
  rewrite <- (app_nil_r (snaps' ++ [schedule (present s')])) at 1.
  rewrite redo_all.
  rewrite app_comm_cons, removelast_last, List.last_last.
  rewrite (same_but_schedule_with _ _ Hframe'), <- Hpast'.
  rewrite <- (Hfuture Hne). by destruct s'.
Qed.


(** X6. SET_LESSON is always recorded, also when it changes nothing: the
    schedule of before is pushed onto [past] and [future] is emptied even
    when the key already holds the very lesson that is set, or holds
    nothing and is cleared; the schedule is then the same as before. *)
Theorem set_lesson_always_recorded (s : HistoryState) (key : string)
    (data : option LessonData) :
  exists s',
    reducer s (SET_LESSON key data) = Ok s' ∧
    last (past s') = Some (schedule (present s)) ∧
    future s' = [] ∧
    (schedule (present s) !! key = data -> schedule (present s') = schedule (present s)).
Proof.
  eexists. split; [reflexivity|]. simpl. split; [|split; [done|]].
  - rewrite push_past_recorded. apply recorded_past_last.
  - intros Hsame. destruct data as [d|].
    + by apply insert_id.
    + by apply delete_id.
Qed.

(** X7. The history is not pruned when a teacher is deleted: a snapshot
    taken before the deletion still holds the teacher's lessons, and an undo
    brings them back although the teacher is gone from the list. *)
Theorem undo_after_delete_teacher (s : HistoryState) (prev : Schedule)
    (k : string) (l : LessonData) :
  last (past s) = Some prev ->
  prev !! k = Some l ->
  exists s',
    dispatch_all s [DELETE_TEACHER (teacherId l); UNDO] = Ok s' ∧
    schedule (present s') !! k = Some l ∧
    teacherId l ∉ map teacher_id (teachers (present s')).
Proof.
  intros Hlast Hk.
  eexists. split.
  - cbn [dispatch_all].
    erewrite (reducer_changed s (DELETE_TEACHER (teacherId l))); [|by right|reflexivity].
    cbn [isUndoable mbind Result_bind].
    erewrite reducer_undo; [reflexivity|exact Hlast].
  - simpl. split; [done|].
    intros Hin. apply list_elem_of_fmap in Hin as (x & Hid & Hx).
    apply list_elem_of_filter in Hx as [Hne _]. by apply Hne.
Qed.

End UndoRedo.

(** ** What the mutations keep *)

Section Mutations.
Context `{imports : Imports}.

Lemma with_schedule_twice (p : AppState) (a b : Schedule) :
  with_schedule (with_schedule p a) b = with_schedule p b.
Proof. reflexivity. Qed.

Lemma move_back_schedule (sched : Schedule) (fromKey toKey : string) (item : LessonData) :
  sched !! fromKey = Some item ->
  let moved :=
    match sched !! toKey with
    | Some other => <[fromKey := other]> (<[toKey := item]> sched)
    | None => delete fromKey (<[toKey := item]> sched)
    end in
  moved !! toKey = Some item ∧
  size moved = size sched ∧
  match moved !! fromKey with
  | Some other => <[toKey := other]> (<[fromKey := item]> moved)
  | None => delete toKey (<[fromKey := item]> moved)
  end = sched.
Proof.
  intros Hfrom. destruct (decide (fromKey = toKey)) as [->|Hne].
  - rewrite Hfrom. cbn zeta. rewrite !lookup_insert_eq. split; [done|]. split.
    + rewrite !map_size_insert_Some; [done|by rewrite Hfrom|].
      rewrite lookup_insert_eq. by eexists.
    + apply map_eq. intros k. destruct (decide (k = toKey)) as [->|Hk].
      * by rewrite lookup_insert_eq.
      * by rewrite !lookup_insert_ne.
  - destruct (sched !! toKey) as [other|] eqn:Hto; cbn zeta.
    + rewrite lookup_insert_ne, lookup_insert_eq by done. split; [done|]. split.
      * rewrite !map_size_insert_Some; [done|by rewrite Hto|].
        rewrite lookup_insert_ne by done. by rewrite Hfrom.
      * rewrite lookup_insert_eq. apply map_eq. intros k.
        destruct (decide (k = toKey)) as [->|Hk]; [by rewrite lookup_insert_eq|].
        rewrite lookup_insert_ne by done.
        destruct (decide (k = fromKey)) as [->|Hk']; [by rewrite lookup_insert_eq|].
        by rewrite !lookup_insert_ne.
    + rewrite lookup_delete_ne, lookup_insert_eq by done. split; [done|]. split.
      * rewrite map_size_delete_Some, map_size_insert_None; [done|done|].
        rewrite lookup_insert_ne by done. by rewrite Hfrom.
      * rewrite lookup_delete_eq. apply map_eq. intros k.
        destruct (decide (k = toKey)) as [->|Hk]; [by rewrite lookup_delete_eq|].
        rewrite lookup_delete_ne by done.
        destruct (decide (k = fromKey)) as [->|Hk']; [by rewrite lookup_insert_eq|].
        rewrite lookup_insert_ne, lookup_delete_ne, lookup_insert_ne; done.
Qed.

(** X8. Moving a lesson and moving it back restores the state: for keys
    that name no member of [Object.prototype], when [fromKey] holds a
    lesson, MOVE_LESSON from [fromKey] to [toKey] keeps the number of
    lessons, and MOVE_LESSON from [toKey] to [fromKey] applied to its result
    gives the first state again; this holds for a free target, for an
    occupied one (a swap) and for [fromKey = toKey]. *)
Theorem move_lesson_round_trip (p : AppState) (fromKey toKey : string)
    (item : LessonData) (there : own_keys fromKey toKey) (back : own_keys toKey fromKey) :
  schedule p !! fromKey = Some item ->
  exists p1,
    appReducer p (MOVE_LESSON fromKey toKey there) = Ok (Changed p1) ∧
    size (schedule p1) = size (schedule p) ∧
    appReducer p1 (MOVE_LESSON toKey fromKey back) = Ok (Changed p).
Proof.
  intros Hfrom.
  destruct (move_back_schedule _ _ toKey _ Hfrom) as (Hto & Hsize & Hback).
  eexists. split; [simpl; rewrite Hfrom; reflexivity|].
  split; [exact Hsize|].
  cbn [appReducer schedule with_schedule]. rewrite Hto.
  rewrite Hback. by destruct p.
Qed.

Lemma map_replace_ids {A} (id : A -> string) (payload : A) (l : list A) :
  map id (map (fun x => if decide (id x = id payload) then payload else x) l) = map id l.
Proof.
  induction l as [|x l IH]; [done|]. simpl. rewrite IH.
  by destruct (decide (id x = id payload)) as [->|].
Qed.

Lemma map_replace_absent {A} (id : A -> string) (payload : A) (l : list A) :
  id payload ∉ map id l ->
  map (fun x => if decide (id x = id payload) then payload else x) l = l.
Proof.
  induction l as [|x l IH]; [done|]. simpl. intros Hnot.
  apply not_elem_of_cons in Hnot as [Hne Hnot].
  rewrite IH by done. by rewrite decide_False.
Qed.

Lemma map_replace_hit {A} (id : A -> string) (payload : A) (l : list A) (x : A) :
  x ∈ map (fun x => if decide (id x = id payload) then payload else x) l ->
  id x = id payload -> x = payload.
Proof.
  intros Hin Hid. apply list_elem_of_fmap in Hin as (y & -> & _).
  by destruct (decide (id y = id payload)).
Qed.

(** X9. Updating a teacher or a class never adds, removes or reorders an
    entry: the list of ids is the same afterwards, every entry with the
    payload's id is the payload, an id that is not in the list leaves the
    list as it was (the update is dropped, nothing is added), and the
    schedule is untouched. *)
Theorem update_keeps_ids (p : AppState) :
  (forall t, exists p1,
     appReducer p (UPDATE_TEACHER t) = Ok (Changed p1) ∧
     map teacher_id (teachers p1) = map teacher_id (teachers p) ∧
     (forall x, x ∈ teachers p1 -> teacher_id x = teacher_id t -> x = t) ∧
     (teacher_id t ∉ map teacher_id (teachers p) -> p1 = p) ∧
     schedule p1 = schedule p) ∧
  (forall c, exists p1,
     appReducer p (UPDATE_CLASS c) = Ok (Changed p1) ∧
     map class_id (classes p1) = map class_id (classes p) ∧
     (forall x, x ∈ classes p1 -> class_id x = class_id c -> x = c) ∧
     (class_id c ∉ map class_id (classes p) -> p1 = p) ∧
     schedule p1 = schedule p).
Proof.
  split.
  - intros t. eexists. split; [reflexivity|]. simpl.
    split; [apply map_replace_ids|]. split; [apply map_replace_hit|]. split; [|done].
    intros Hnot. unfold with_teachers. rewrite map_replace_absent by done. by destruct p.
  - intros c. eexists. split; [reflexivity|]. simpl.
    split; [apply map_replace_ids|]. split; [apply map_replace_hit|]. split; [|done].
    intros Hnot. unfold with_classes. rewrite map_replace_absent by done. by destruct p.
Qed.

Lemma delete_each_none (test : string -> LessonData -> bool) (o : Schedule) :
  (forall k l, o !! k = Some l -> test k l = false) -> delete_each test o = o.
Proof.
  intros Hnone. apply map_eq. intros k. apply option_eq. intros l.
  rewrite delete_each_lookup. split; [by intros [? _]|]. intros Hk. split; [done|].
  by eapply Hnone.
Qed.

Lemma filter_fresh {A} (id : A -> string) (x : A) (l : list A) :
  id x ∉ map id l ->
  filter (fun y => id y ≠ id x) (l ++ [x]) = l.
Proof.
  intros Hfresh. rewrite filter_app.
  rewrite (filter_cons_False _ x []) by (intros Hne; by apply Hne).
  rewrite filter_nil, app_nil_r.
  induction l as [|y l IH]; [done|]. simpl in Hfresh.
  apply not_elem_of_cons in Hfresh as [Hne Hfresh].
  rewrite filter_cons_True by done. by rewrite IH.
Qed.

(** X10. Adding a teacher and deleting them again restores the state, when
    the id is new and no lesson names it: ADD_TEACHER does not check the id,
    and DELETE_TEACHER removes every teacher and every lesson with the id,
    so both conditions are needed. The same holds for a class, when the id
    is new and no schedule key starts with the id followed by [_]. *)
Theorem add_then_delete (p : AppState) :
  (forall t,
     teacher_id t ∉ map teacher_id (teachers p) ->
     (forall k l, schedule p !! k = Some l -> teacherId l ≠ teacher_id t) ->
     exists p1 p2,
       appReducer p (ADD_TEACHER t) = Ok (Changed p1) ∧
       appReducer p1 (DELETE_TEACHER (teacher_id t)) = Ok (Changed p2) ∧ p2 = p) ∧
  (forall c,
     class_id c ∉ map class_id (classes p) ->
     (forall k l, schedule p !! k = Some l -> String.prefix (class_id c +:+ "_") k = false) ->
     exists p1 p2,
       appReducer p (ADD_CLASS c) = Ok (Changed p1) ∧
       appReducer p1 (DELETE_CLASS (class_id c)) = Ok (Changed p2) ∧ p2 = p).
Proof.
  split.
  - intros t Hfresh Hfree. do 2 eexists. split; [reflexivity|]. split; [reflexivity|].
    unfold with_schedule, with_teachers. simpl.
    rewrite (filter_fresh teacher_id) by done.
    rewrite delete_each_none; [by destruct p|].
    intros k l Hk. unfold teaches. apply bool_decide_eq_false. by eapply Hfree.
  - intros c Hfresh Hfree. do 2 eexists. split; [reflexivity|]. split; [reflexivity|].
    unfold with_schedule, with_classes. simpl.
    rewrite (filter_fresh class_id) by done.
    rewrite delete_each_none; [by destruct p|].
    intros k l Hk. unfold under_class. by eapply Hfree.
Qed.

Lemma prefix_app_r (a b c : string) :
  String.prefix a b = true -> String.prefix a (b +:+ c) = true.
Proof.
  revert b. induction a as [|x a IH]; intros b; [intros _; by destruct (b +:+ c)|].
  destruct b as [|y b]; [done|].
  rewrite append_cons. simpl. destruct (ascii_dec x y); [apply IH|done].
Qed.

Lemma prefix_longer (s : string) (x : ascii) (t : string) :
  String.prefix (s +:+ String x t) s = false.
Proof.
  induction s as [|y s IH]; [done|].
  rewrite append_cons. simpl. by destruct (ascii_dec y y).
Qed.

Lemma prefix_trans (a b c : string) :
  String.prefix a b = true -> String.prefix b c = true -> String.prefix a c = true.
Proof.
  revert b c. induction a as [|x a IH]; intros b c; [intros _ _; by destruct c|].
  destruct b as [|y b]; [done|]. destruct c as [|z c]; [done|]. simpl.
  destruct (ascii_dec x y) as [->|]; [|done].
  destruct (ascii_dec y z) as [->|]; [|done].
  apply IH.
Qed.

(** X11. Class ids are matched by prefix, so deleting a class takes the
    lessons of another class with it when that class's id starts with the
    deleted id followed by [_]: every key of the other class (its id
    followed by [_]) is free afterwards, although the class itself stays in
    the list. *)
Theorem delete_class_takes_prefixed (p : AppState) (c : string) (other : ClassGroup) :
  String.prefix (c +:+ "_") (class_id other) = true ->
  other ∈ classes p ->
  exists p1,
    appReducer p (DELETE_CLASS c) = Ok (Changed p1) ∧
    other ∈ classes p1 ∧
    forall k, String.prefix (class_id other +:+ "_") k = true -> schedule p1 !! k = None.
Proof.
  intros Hprefix Hin. eexists. split; [reflexivity|]. simpl. split.
  - apply list_elem_of_filter. split; [|done].
    intros Heq. rewrite Heq in Hprefix. by rewrite prefix_longer in Hprefix.
  - intros k Hk. apply eq_None_not_Some. intros [l Hl].
    apply delete_each_lookup in Hl as [_ Hunder]. unfold under_class in Hunder.
    rewrite (prefix_trans _ (class_id other +:+ "_") k) in Hunder; [done| |done].
    by apply prefix_app_r.
Qed.

Lemma delete_each_subseteq (test : string -> LessonData -> bool) (o : Schedule) :
  delete_each test o ⊆ o.
Proof.
  apply map_subseteq_spec. intros k l Hk. by apply delete_each_lookup in Hk as [? _].
Qed.

(** X12. Teacher, class, settings and design actions never add or change a
    lesson: after any mutation that is not recorded in the history the
    schedule is a sub-map of the schedule before, and it is the very same
    schedule unless the action deletes a teacher or a class. *)
Theorem plain_mutation_schedule (p : AppState) (a : Action) :
  isPlainMutation a = true ->
  exists p1,
    appReducer p a = Ok (Changed p1) ∧
    schedule p1 ⊆ schedule p ∧
    ((forall id, a ≠ DELETE_TEACHER id ∧ a ≠ DELETE_CLASS id) -> schedule p1 = schedule p).
Proof.
  destruct a; try discriminate; intros _; eexists; (split; [reflexivity|]); simpl;
    try (split; [done|done]).
  - split; [apply delete_each_subseteq|]. intros Hnot. by destruct (Hnot payload) as [? _].
  - split; [apply delete_each_subseteq|]. intros Hnot. by destruct (Hnot payload) as [_ ?].
Qed.

Lemma assoc_app {A} (k : string) (l1 l2 : list (string * A)) :
  assoc k (l1 ++ l2) = match assoc k l1 with Some v => Some v | None => assoc k l2 end.
Proof.
  induction l1 as [|[k' v] l1 IH]; [done|]. simpl.
  by destruct (decide (k' = k)).
Qed.

Lemma assoc_filter {A} (P : string -> Prop) `{!forall x, Decision (P x)}
    (k : string) (b : list (string * A)) :
  assoc k (filter (fun kv => P kv.1) b) = if decide (P k) then assoc k b else None.
Proof.
  induction b as [|[k' v] b IH]; [by destruct (decide (P k))|].
  rewrite filter_cons. simpl. destruct (decide (P k')) as [Hk'|Hk']; simpl.
  - destruct (decide (k' = k)) as [->|Hne]; [by destruct (decide (P k))|exact IH].
  - rewrite IH. destruct (decide (k' = k)) as [->|Hne]; [by destruct (decide (P k))|done].
Qed.

Lemma assoc_override (k : string) (a b : Obj) :
  assoc k (map (fun kv => (kv.1, default kv.2 (assoc kv.1 b))) a)
  = (fun v => default v (assoc k b)) <$> assoc k a.
Proof.
  induction a as [|[k' v] a IH]; [done|]. simpl.
  by destruct (decide (k' = k)) as [->|Hne].
Qed.

Lemma assoc_spread (a b : Obj) (k : string) :
  assoc k (spread a b) = match assoc k b with Some v => Some v | None => assoc k a end.
Proof.
  unfold spread. rewrite assoc_app, assoc_override.
  pose proof (assoc_filter (fun x => has_key x a = false) k b) as Hfilter.
  cbv beta in Hfilter. rewrite Hfilter. clear Hfilter.
  unfold has_key. destruct (assoc k a) as [v|]; simpl.
  - by destruct (assoc k b).
  - by destruct (assoc k b).
Qed.

(** X13. Settings patches are read back key by key: after UPDATE_UI,
    UPDATE_DESIGN or UPDATE_PRINT_DESIGN a key of the patch has the
    patch's value and every other key the value it had; no key is ever
    removed. *)
Theorem update_patch_lookup (p : AppState) (payload : Obj) (k : string) :
  let patched (o : Obj) :=
    match assoc k payload with Some v => Some v | None => assoc k o end in
  (exists p1, appReducer p (UPDATE_UI payload) = Ok (Changed p1) ∧
              assoc k (ui p1) = patched (ui p)) ∧
  (exists p1, appReducer p (UPDATE_DESIGN payload) = Ok (Changed p1) ∧
              assoc k (design p1) = patched (design p)) ∧
  (exists p1, appReducer p (UPDATE_PRINT_DESIGN payload) = Ok (Changed p1) ∧
              assoc k (printDesign p1) = patched (printDesign p)).
Proof.
  intros patched. repeat split; eexists; (split; [reflexivity|]); apply assoc_spread.
Qed.

End Mutations.

(** ** Theme colours *)

Section ThemeColours.
Import Theme.
#[local] Open Scope Z_scope.

Lemma toInt32_small (z : Z) : (0 <= z < 2 ^ 31) -> toInt32 z = z.
Proof.
  intros Hz. unfold toInt32. cbv zeta.
  rewrite Z.mod_small by lia.
  destruct (Z.ltb_spec z (2 ^ 31)); lia.
Qed.

Lemma shiftLeft_channel (x n : Z) :
  (0 <= x < 256) -> (0 <= n <= 16) -> shiftLeft x n = (x * 2 ^ n).
Proof.
  intros Hx Hn. unfold shiftLeft.
  rewrite (Z.mod_small n 32) by lia.
  rewrite (toInt32_small x) by lia.
  rewrite Z.shiftl_mul_pow2 by lia.
  apply toInt32_small.
  assert (2 ^ n <= 2 ^ 16) by (apply Z.pow_le_mono_r; lia).
  assert (0 < 2 ^ n) by (apply Z.pow_pos_nonneg; lia).
  nia.
Qed.

Lemma hexValue_hexDigit (d : Z) : (0 <= d < 16) -> hexValue (hexDigit d) = Some d.
Proof.
  intros Hd.
  destruct d as [|p|p]; [reflexivity| |lia].
  do 4 (try destruct p as [p|p|]; try lia; try reflexivity).
Qed.

Lemma hexValue_range (c : ascii) (v : Z) : hexValue c = Some v -> (0 <= v < 16).
Proof.
  unfold hexValue. cbv zeta.
  repeat (case_match; [intros [= <-]; lia|]). done.
Qed.

Lemma hexPair_range (hi lo : ascii) (v : Z) : hexPair hi lo = Some v -> (0 <= v <= 255).
Proof.
  unfold hexPair.
  destruct (hexValue hi) as [h|] eqn:Hh; [|done].
  destruct (hexValue lo) as [l|] eqn:Hl; [|done].
  simpl. intros [= <-].
  apply hexValue_range in Hh, Hl. lia.
Qed.

Lemma hexPair_digits (v : Z) :
  (0 <= v < 256) -> hexPair (hexDigit (v / 16)) (hexDigit (v mod 16)) = Some v.
Proof.
  intros Hv. unfold hexPair.
  assert (0 <= v mod 16 < 16) by (apply Z.mod_pos_bound; lia).
  assert (0 <= v / 16 < 16)
    by (split; [apply Z.div_pos; lia|apply Z.div_lt_upper_bound; lia]).
  rewrite !hexValue_hexDigit by done.
  simpl. f_equal. pose proof (Z.div_mod v 16). lia.
Qed.

Lemma toHex_more (fuel : nat) (q d : Z) (acc : string) :
  (0 < q) -> (0 <= d < 16) ->
  toHex (S fuel) (16 * q + d) acc = toHex fuel q (String (hexDigit d) acc).
Proof.
  intros Hq Hd. cbn [toHex].
  replace ((16 * q + d) mod 16) with d
    by (rewrite Z.add_comm, Z.mul_comm, Z.mod_add, Z.mod_small; lia).
  replace ((16 * q + d) / 16) with q
    by (rewrite Z.add_comm, Z.mul_comm, Z.div_add, Z.div_small; lia).
  destruct (Z.eqb_spec q 0); [lia|done].
Qed.

Lemma toHex_last (fuel : nat) (d : Z) (acc : string) :
  (0 <= d < 16) -> toHex (S fuel) d acc = String (hexDigit d) acc.
Proof.
  intros Hd. cbn [toHex].
  rewrite Z.mod_small, Z.div_small by lia. reflexivity.
Qed.

Lemma rgbToHex_digits (r g b : Z) :
  (0 <= r < 256) -> (0 <= g < 256) -> (0 <= b < 256) ->
  rgbToHex r g b =
    String "#" (String (hexDigit (r / 16)) (String (hexDigit (r mod 16))
      (String (hexDigit (g / 16)) (String (hexDigit (g mod 16))
        (String (hexDigit (b / 16)) (String (hexDigit (b mod 16)) "")))))).
Proof.
  intros Hr Hg Hb. unfold rgbToHex.
  change (shiftLeft 1 24) with 16777216.
  rewrite (shiftLeft_channel r 16), (shiftLeft_channel g 8) by lia.
  set (n := (16777216 + r * 2 ^ 16 + g * 2 ^ 8 + b)).
  assert (Hlog : Z.log2 n = 24).
  { apply Z.log2_unique; [lia|]. subst n. lia. }
  unfold toString16. destruct (Z.ltb_spec n 0) as [Hneg|_]; [subst n; lia|].
  rewrite Hlog. change (S (Z.to_nat 24)) with 25%nat.
  pose proof (Z.div_mod r 16). pose proof (Z.mod_pos_bound r 16).
  pose proof (Z.div_mod g 16). pose proof (Z.mod_pos_bound g 16).
  pose proof (Z.div_mod b 16). pose proof (Z.mod_pos_bound b 16).
  assert (0 <= r / 16 < 16) by (split; [apply Z.div_pos|apply Z.div_lt_upper_bound]; lia).
  assert (0 <= g / 16 < 16) by (split; [apply Z.div_pos|apply Z.div_lt_upper_bound]; lia).
  assert (0 <= b / 16 < 16) by (split; [apply Z.div_pos|apply Z.div_lt_upper_bound]; lia).
  replace n with
    (16 * (16 * (16 * (16 * (16 * (16 * 1 + r / 16) + r mod 16) + g / 16) + g mod 16)
             + b / 16) + b mod 16) by (subst n; lia).
  rewrite !toHex_more by lia.
  rewrite toHex_last by lia. reflexivity.
Qed.

(** X15. A colour written by [rgbToHex] is read back by [hexToRgb]: for
    integer channels from 0 to 255 the result is [#] and six hexadecimal
    digits, and parsing it gives the three channels again. *)
Theorem rgbToHex_round_trip (r g b : Z) :
  (0 <= r <= 255) -> (0 <= g <= 255) -> (0 <= b <= 255) ->
  String.length (rgbToHex r g b) = 7%nat ∧
  hexToRgb (rgbToHex r g b) = Some (mkRgb r g b).
Proof.
  intros Hr Hg Hb. rewrite rgbToHex_digits by lia. split; [reflexivity|].
  unfold hexToRgb. cbn [afterHash].
  rewrite !hexPair_digits by lia. reflexivity.
Qed.

(** X16. Whatever [hexToRgb] accepts has channels from 0 to 255, and
    [rgbToHex] writes it back as a colour that parses to the same channels
    (upper-case digits come back in lower case, a missing [#] is added). *)
Theorem hexToRgb_channels (hex : string) (c : Rgb) :
  hexToRgb hex = Some c ->
  (0 <= r c <= 255) ∧ (0 <= g c <= 255) ∧ (0 <= b c <= 255) ∧
  hexToRgb (rgbToHex (r c) (g c) (b c)) = Some c.
Proof.
  intros Hparse.
  assert (Hrange : (0 <= r c <= 255) ∧ (0 <= g c <= 255) ∧ (0 <= b c <= 255)).
  { unfold hexToRgb in Hparse.
    destruct (afterHash hex) as [|r1 [|r0 [|g1 [|g0 [|b1 [|b0 [|]]]]]]]; try done.
    destruct (hexPair r1 r0) as [rv|] eqn:Hrv; [|done].
    destruct (hexPair g1 g0) as [gv|] eqn:Hgv; [|done].
    destruct (hexPair b1 b0) as [bv|] eqn:Hbv; [|done].
    simpl in Hparse. injection Hparse as <-. simpl.
    split; [|split]; eapply hexPair_range; eassumption. }
  destruct Hrange as (Hr & Hg & Hb). repeat (split; [done|]).
  rewrite rgbToHex_digits by lia.
  unfold hexToRgb. cbn [afterHash].
  rewrite !hexPair_digits by lia. by destruct c.
Qed.

End ThemeColours.

(** ** Toasts *)

Section ToastList.
Import Toasts.

(** X17. A toast is removed by its id: removing the id of the toast just
    added gives the list of before when the id is new, and takes every
    older toast with the same id along when it is not; removing another id
    keeps the new toast at the end. *)
Theorem toast_add_remove (prev : list ToastMessage) (newId type message : string) :
  removeToast newId (addToast newId type message prev) = removeToast newId prev ∧
  (newId ∉ map id prev -> removeToast newId (addToast newId type message prev) = prev) ∧
  (forall other, other ≠ newId ->
     removeToast other (addToast newId type message prev)
     = addToast newId type message (removeToast other prev)).
Proof.
  unfold removeToast, addToast. split; [|split].
  - rewrite filter_app, (filter_cons_False _ _ []) by (simpl; intros Hne; by apply Hne).
    by rewrite filter_nil, app_nil_r.
  - intros Hfresh.
    rewrite filter_app, (filter_cons_False _ _ []) by (simpl; intros Hne; by apply Hne).
    rewrite filter_nil, app_nil_r.
    induction prev as [|t prev IH]; [done|]. simpl in Hfresh.
    apply not_elem_of_cons in Hfresh as [Hne Hfresh].
    rewrite filter_cons_True by done. by rewrite IH.
  - intros other Hother.
    rewrite filter_app, (filter_cons_True _ _ []) by (simpl; congruence).
    by rewrite filter_nil.
Qed.

End ToastList.

(** ** The project store *)

Section ProjectStore.
Context `{imports : Imports}.
Import Projects.

Lemma map_stamped_ids (test : Project -> bool) (update : Z -> Project -> Project)
    (now : nat -> Z) (k : nat) (ps : list Project) :
  (forall z p, id (update z p) = id p) ->
  map id (map_stamped test update now k ps) = map id ps.
Proof.
  intros Hid. revert k. induction ps as [|p ps IH]; intros k; [done|].
  simpl. destruct (test p); simpl; by rewrite ?Hid, IH.
Qed.

Lemma map_stamped_none (test : Project -> bool) (update : Z -> Project -> Project)
    (now : nat -> Z) (k : nat) (ps : list Project) :
  (forall p, p ∈ ps -> test p = false) ->
  map_stamped test update now k ps = ps.
Proof.
  revert k. induction ps as [|p ps IH]; intros k Hnone; [done|].
  simpl. rewrite (Hnone p) by apply list_elem_of_here.
  rewrite IH; [done|]. intros q Hq. apply Hnone. by apply list_elem_of_further.
Qed.

Lemma find_project_stamped (a : string) (update : Z -> Project -> Project)
    (now : nat -> Z) (k : nat) (ps : list Project) :
  (forall z p, id (update z p) = id p) ->
  exists j,
    find_project a
      (map_stamped (fun p => bool_decide (Some (id p) = Some a)) update now k ps)
    = update (now j) <$> find_project a ps.
Proof.
  intros Hid. revert k. induction ps as [|p ps IH]; intros k; [by exists 0|].
  unfold find_project in *. simpl.
  destruct (decide (id p = a)) as [Heq|Hne].
  - rewrite (bool_decide_eq_true_2 (Some (id p) = Some a)) by congruence.
    simpl. rewrite Hid, !bool_decide_eq_true_2 by done. by exists k.
  - rewrite (bool_decide_eq_false_2 (Some (id p) = Some a)) by congruence.
    simpl. rewrite !bool_decide_eq_false_2 by done. apply IH.
Qed.

Lemma find_project_listed (a : string) (ps : list Project) :
  a ∈ map id ps -> exists p, find_project a ps = Some p.
Proof.
  unfold find_project. induction ps as [|p ps IH]; simpl.
  - intros Hin. by apply elem_of_nil in Hin.
  - intros Hin. destruct (decide (id p = a)) as [Heq|Hne].
    + rewrite bool_decide_eq_true_2 by done. by eexists.
    + rewrite bool_decide_eq_false_2 by done. apply IH.
      apply elem_of_cons in Hin as [Heq|Hin]; [congruence|done].
Qed.

Lemma find_project_id (a : string) (ps : list Project) (p : Project) :
  find_project a ps = Some p -> id p = a ∧ p ∈ ps.
Proof.
  unfold find_project. intros Hfind. apply List.find_some in Hfind as [Hin Hid].
  split; [by apply bool_decide_eq_true in Hid|by apply list_elem_of_In].
Qed.

Lemma listed_id (p : Project) (ps : list Project) : p ∈ ps -> id p ∈ map id ps.
Proof. intros Hin. apply list_elem_of_fmap. by exists p. Qed.

(** X18. The active project never dangles: when the active project is in
    the list of projects (or none is active), it still is after any action
    other than the two that load a state from their payload. This covers
    creating, renaming, deleting (also the active one) and switching. *)
Theorem active_project_stays_listed (env : Env) (s s' : AppState) (a : Action) :
  active_listed s ->
  isStateLoad a = false ->
  reducer env s a = Ok s' ->
  active_listed s'.
Proof.
  intros Hlisted Hkind Hred.
  destruct a; try discriminate; simpl in Hred;
    try (injection Hred as <-; exact Hlisted).
  - destruct (generateId env) as [newId|e]; [|done]. simpl in Hred.
    injection Hred as <-. intros a. simpl. intros [= <-].
    rewrite map_app. apply elem_of_app. right. simpl. apply list_elem_of_here.
  - injection Hred as <-. intros a Ha. simpl in *.
    rewrite map_stamped_ids by done. by apply Hlisted.
  - destruct (decide (activeProjectId s = Some payload)) as [Hactive|Hother].
    + destruct (head (filter (fun p => id p ≠ payload) (projects s)))
        as [nextProject|] eqn:Hhead.
      * destruct (decide (id nextProject = "")); injection Hred as <-;
          [by intros a|].
        intros a. simpl. intros [= <-].
        destruct (filter (fun p => id p ≠ payload) (projects s)) as [|q qs]; [done|].
        simpl in Hhead. injection Hhead as ->. simpl. apply list_elem_of_here.
      * injection Hred as <-. by intros a.
    + injection Hred as <-. intros a Ha. simpl in *.
      apply list_elem_of_fmap. apply Hlisted in Ha as Hin.
      apply list_elem_of_fmap in Hin as (p & -> & Hp).
      exists p. split; [done|]. apply list_elem_of_filter. split; [|done].
      congruence.
  - destruct (find_project payload (projects s)) as [projectToLoad|] eqn:Hfind.
    + injection Hred as <-. intros a. simpl. intros [= <-].
      rewrite map_stamped_ids by done.
      apply find_project_id in Hfind as [<- Hin]. by apply listed_id.
    + by injection Hred as <-.
Qed.

(** X19. Switching loads the copy that was stored before the switch and
    stores the working data under the project that was active: after
    SET_ACTIVE_PROJECT to a listed project, the working data is that
    project's stored data as it was in the state before, also when the
    project is the active one itself, whose unsaved edits are thereby
    swapped with its stored copy. *)
Theorem switch_project_loads_stored (env : Env) (s : AppState) (a b : string)
    (target : Project) :
  activeProjectId s = Some a ->
  a ∈ map id (projects s) ->
  find_project b (projects s) = Some target ->
  exists s1 saved,
    reducer env s (SET_ACTIVE_PROJECT b) = Ok s1 ∧
    activeProjectId s1 = Some b ∧
    currentData s1 = data target ∧
    find_project a (projects s1) = Some saved ∧
    data saved = currentData s ∧
    map id (projects s1) = map id (projects s).
Proof.
  intros Hactive Hlisted Hfind.
  destruct (find_project_listed _ _ Hlisted) as [stored Hstored].
  simpl. rewrite Hfind, Hactive.
  edestruct (find_project_stamped a
    (fun stamp p => mkProject (id p) (name p) (description p) (createdAt p) stamp
                      (currentData s)) (now env) 0 (projects s)) as [j Hj]; [done|].
  rewrite Hstored in Hj. simpl in Hj.
  do 2 eexists. split; [reflexivity|]. simpl.
  split; [done|]. split; [by destruct (data target)|].
  split; [exact Hj|]. split; [done|]. by apply map_stamped_ids.
Qed.

(** X20. Switching to another project and back restores the working data:
    with the active project listed, SET_ACTIVE_PROJECT to any listed
    project followed by SET_ACTIVE_PROJECT to the first one gives back the
    teachers, classes, lessons, time settings and design settings of
    before, whatever the clock reads. *)
Theorem switch_project_round_trip (env1 env2 : Env) (s : AppState) (a b : string) :
  activeProjectId s = Some a ->
  a ∈ map id (projects s) ->
  b ∈ map id (projects s) ->
  exists s1 s2,
    reducer env1 s (SET_ACTIVE_PROJECT b) = Ok s1 ∧
    reducer env2 s1 (SET_ACTIVE_PROJECT a) = Ok s2 ∧
    currentData s2 = currentData s ∧
    activeProjectId s2 = Some a.
Proof.
  intros Hactive Ha Hb.
  destruct (find_project_listed _ _ Hb) as [target Htarget].
  destruct (find_project_listed _ _ Ha) as [stored Hstored].
  edestruct (find_project_stamped a
    (fun stamp p => mkProject (id p) (name p) (description p) (createdAt p) stamp
                      (currentData s)) (now env1) 0 (projects s)) as [j Hj]; [done|].
  rewrite Hstored in Hj. simpl in Hj.
  do 2 eexists. split; [simpl; rewrite Htarget, Hactive; reflexivity|].
  cbn [reducer projects load]. rewrite Hj.
  split; [reflexivity|]. split; [|done].
  simpl. by destruct s.
Qed.

(** X21. CREATE_PROJECT does not save the working data: it appends the new
    project and leaves every stored project as it was, so that going back
    to the project that was active loads its stored copy, and the edits
    made since that copy was stored are gone. *)
Theorem create_project_drops_edits (env1 env2 : Env) (s : AppState) (a newId : string)
    (stored : Project) (name : string) (description : option string) :
  activeProjectId s = Some a ->
  find_project a (projects s) = Some stored ->
  generateId env1 = Ok newId ->
  exists s1 s2 created,
    reducer env1 s (CREATE_PROJECT name description) = Ok s1 ∧
    projects s1 = projects s ++ [created] ∧
    id created = newId ∧ activeProjectId s1 = Some newId ∧
    reducer env2 s1 (SET_ACTIVE_PROJECT a) = Ok s2 ∧
    currentData s2 = data stored.
Proof.
  intros Hactive Hstored Hid.
  do 3 eexists. split; [simpl; rewrite Hid; reflexivity|].
  split; [reflexivity|]. split; [reflexivity|]. split; [reflexivity|].
  cbn [reducer projects load].
  assert (Hfind : forall extra, find_project a (projects s ++ extra) = Some stored).
  { intros extra. unfold find_project in *. revert Hstored.
    induction (projects s) as [|p ps IH]; [done|]. simpl.
    destruct (bool_decide (id p = a)); [done|]. exact IH. }
  rewrite Hfind. split; [reflexivity|]. simpl. by destruct (data stored).
Qed.

(** X22. UPDATE_PROJECT renames and nothing else: the projects keep their
    ids, their order, their data and their creation time, the working data
    and the active project stay, and an id that is not listed changes
    nothing at all. *)
Theorem update_project_renames_only (env : Env) (s : AppState) (pid name : string)
    (description : option string) :
  exists s1,
    reducer env s (UPDATE_PROJECT pid name description) = Ok s1 ∧
    map id (projects s1) = map id (projects s) ∧
    map data (projects s1) = map data (projects s) ∧
    map createdAt (projects s1) = map createdAt (projects s) ∧
    currentData s1 = currentData s ∧
    activeProjectId s1 = activeProjectId s ∧
    (pid ∉ map id (projects s) -> s1 = s).
Proof.
  eexists. split; [reflexivity|]. simpl.
  assert (Hkeep : forall {A} (f : Project -> A) k,
    (forall z p, f (mkProject (id p) name description (createdAt p) z (data p)) = f p) ->
    map f (map_stamped (fun p => bool_decide (id p = pid))
             (fun stamp p => mkProject (id p) name description (createdAt p) stamp (data p))
             (now env) k (projects s)) = map f (projects s)).
  { intros A f k Hf. revert k. induction (projects s) as [|p ps IH]; intros k; [done|].
    simpl. destruct (bool_decide (id p = pid)); simpl; by rewrite ?Hf, IH. }
  rewrite !Hkeep by done. repeat (split; [done|]).
  intros Hnot. unfold with_projects. rewrite map_stamped_none; [by destruct s|].
  intros p Hp. apply bool_decide_eq_false. intros <-. apply Hnot. by apply listed_id.
Qed.

(** X23. DELETE_PROJECT removes every project with the id and keeps the
    others in their order. When the deleted project is not the active one
    the working data stays; when it is, the first remaining project becomes
    active and its stored data is loaded, and the whole state goes back to
    the default state when nothing remains. A first remaining project with
    an empty id counts as nothing remaining: the other projects are then
    dropped as well. *)
Theorem delete_project_cases (env : Env) (s : AppState) (pid : string) :
  let remaining := filter (fun p => id p ≠ pid) (projects s) in
  (exists s1,
    reducer env s (DELETE_PROJECT pid) = Ok s1 ∧
    (pid ∉ map id (projects s1)) ∧
    (activeProjectId s ≠ Some pid ->
       projects s1 = remaining ∧ currentData s1 = currentData s ∧
       activeProjectId s1 = activeProjectId s) ∧
    (activeProjectId s = Some pid ->
       match remaining with
       | next :: _ =>
           if decide (id next = "")
           then s1 = DEFAULT_STATE
           else projects s1 = remaining ∧ activeProjectId s1 = Some (id next) ∧
                currentData s1 = data next
       | [] => s1 = DEFAULT_STATE
       end)).
Proof.
  intros remaining.
  assert (Hgone : pid ∉ map id remaining).
  { intros Hin. apply list_elem_of_fmap in Hin as (p & -> & Hp).
    by apply list_elem_of_filter in Hp as [Hne _]. }
  simpl. fold remaining.
  destruct (decide (activeProjectId s = Some pid)) as [Hactive|Hother].
  - destruct remaining as [|next rest] eqn:Hrem; simpl.
    + eexists. split; [reflexivity|]. split; [apply not_elem_of_nil|].
      split; [done|]. done.
    + destruct (decide (id next = "")) as [Hempty|Hid].
      * eexists. split; [reflexivity|]. split; [apply not_elem_of_nil|].
        split; [done|]. done.
      * eexists. split; [reflexivity|]. split; [exact Hgone|].
        split; [done|]. intros _. simpl. split; [done|]. split; [done|].
        by destruct (data next).
  - eexists. split; [reflexivity|]. split; [exact Hgone|]. split; [done|]. done.
Qed.


End ProjectStore.

(** * The statements at sample inputs *)

Lemma undo_redo_round_trip_sample :
  (exists s1 s2,
      @reducer spec_imports sample_history (SET_LESSON "c2_0_0" (Some sample_lesson)) = Ok s1 ∧
      @reducer spec_imports s1 UNDO = Ok s2 ∧
      schedule (present s2) = schedule (present sample_history)) ∧
  (exists s1,
      @reducer spec_imports sample_history UNDO = Ok s1 ∧
      last (past sample_history) = Some (schedule (present s1)) ∧
      @reducer spec_imports s1 REDO = Ok sample_history) ∧
  @reducer spec_imports fresh_history UNDO = Ok fresh_history ∧
  @reducer spec_imports fresh_history REDO = Ok fresh_history.
Proof.
  split; [|split; [|split]].
  - eapply (proj1 (@undo_redo_round_trip spec_imports sample_history)); reflexivity.
  - apply (proj1 (proj2 (@undo_redo_round_trip spec_imports sample_history))).
    discriminate.
  - apply (proj1 (proj2 (proj2 (@undo_redo_round_trip spec_imports fresh_history)))).
    reflexivity.
  - apply (proj2 (proj2 (proj2 (@undo_redo_round_trip spec_imports fresh_history)))).
    reflexivity.
Defined.

Lemma record_undoable_sample :
  exists s',
    @reducer spec_imports sample_history (SET_LESSON "c2_0_0" (Some sample_lesson)) = Ok s' ∧
    past s' = (if decide (HISTORY_LIMIT <= length (past sample_history))
               then drop 1 (past sample_history) else past sample_history)
              ++ [schedule (present sample_history)] ∧
    future s' = [] ∧
    present s' = step_state (present sample_history)
                   (Changed (with_schedule (present sample_history)
                               (<["c2_0_0" := sample_lesson]>
                                  (schedule (present sample_history))))).
Proof.
  apply (@record_undoable spec_imports sample_history
           (SET_LESSON "c2_0_0" (Some sample_lesson))
           (Changed (with_schedule (present sample_history)
                       (<["c2_0_0" := sample_lesson]> (schedule (present sample_history)))))).
  - reflexivity.
  - reflexivity.
  - vm_compute. discriminate.
Defined.

Lemma past_never_exceeds_limit_sample :
  (exists s',
      @dispatch_all spec_imports fresh_history
        [SET_LESSON "c1_0_0" (Some sample_lesson); UNDO; REDO; DELETE_TEACHER "t1"] = Ok s' ∧
      length (past s') <= 100) ∧
  (exists snaps s',
      @dispatch_all spec_imports blank_history (replicate 101 (REPLACE_SCHEDULE ∅)) = Ok s' ∧
      length (past s') = 100 ∧
      head snaps = Some (schedule (present blank_history)) ∧
      past s' = drop 1 snaps).
Proof.
  split.
  - eexists. split; [vm_compute; reflexivity|].
    apply (proj1 (@past_never_exceeds_limit spec_imports fresh_history eq_refl) eq_refl
             [SET_LESSON "c1_0_0" (Some sample_lesson); UNDO; REDO; DELETE_TEACHER "t1"]).
    vm_compute. reflexivity.
  - eexists _, _.
    apply (proj2 (@past_never_exceeds_limit spec_imports blank_history eq_refl)
             (replicate 101 (REPLACE_SCHEDULE ∅))).
    + reflexivity.
    + vm_compute replicate.
      repeat (eapply (@recorded_cons spec_imports);
              [reflexivity | vm_compute; reflexivity | vm_compute; reflexivity |]).
      apply (@recorded_nil spec_imports).
Defined.

Lemma undo_redo_frame_sample :
  (exists s', @reducer spec_imports sample_history UNDO = Ok s' ∧
              same_but_schedule (present s') (present sample_history)) ∧
  (exists s', @reducer spec_imports undone_history REDO = Ok s' ∧
              same_but_schedule (present s') (present undone_history)).
Proof.
  split.
  - apply (proj1 (@undo_redo_frame spec_imports sample_history)). discriminate.
  - apply (proj2 (@undo_redo_frame spec_imports undone_history)). discriminate.
Defined.

Lemma plain_mutation_keeps_history_sample :
  exists s',
    @reducer spec_imports sample_history (DELETE_TEACHER "t1") = Ok s' ∧
    @appReducer spec_imports (present sample_history) (DELETE_TEACHER "t1")
      = Ok (Changed (present s')) ∧
    past s' = past sample_history ∧ future s' = future sample_history.
Proof.
  apply (@plain_mutation_keeps_history spec_imports sample_history (DELETE_TEACHER "t1")).
  reflexivity.
Defined.

(** The scenario of section 8 of the design: class c1 has two lessons of
    teacher t1 on day 0; both are kept, in the two first lesson slots. *)
Example optimize_scenario :
  map_to_list <$> optimize (<["c1_0_0" := mkLesson "t1" "math"]>
                              (<["c1_0_1" := mkLesson "t1" "physics"]> ∅))
                    scenario_classes (slots_from scenario_settings 4 1 0 480)
  = Some [("c1_0_1", mkLesson "t1" "math"); ("c1_0_0", mkLesson "t1" "physics")].
Proof. vm_compute. reflexivity. Qed.

Lemma scenario_settings_valid : valid_settings scenario_settings.
Proof.
  unfold valid_settings. simpl.
  repeat split; try lia. exists 480%Z. reflexivity.
Defined.

Lemma computeSlots_grid_sample :
  exists slots t0,
    computeSlots scenario_settings = Ok slots ∧
    parseTime (startTime scenario_settings) = Some t0 ∧
    length (lessonSlots slots) = Z.to_nat (totalLessons scenario_settings) ∧
    Z.of_nat (length (breakSlots slots))
      = ((totalLessons scenario_settings - 1) / lessonsBeforeBreak scenario_settings)%Z ∧
    (forall j s, slots !! j = Some s ->
       index s = j ∧
       (isBreak s = true
        <-> (Z.of_nat j + 1) mod (lessonsBeforeBreak scenario_settings + 1) = 0)%Z ∧
       slotEnd s = (slotStart s + slotDuration scenario_settings s)%Z) ∧
    (lessonsBeforeBreak scenario_settings >= totalLessons scenario_settings ->
     breakSlots slots = [])%Z ∧
    (forall s, slots !! 0 = Some s -> slotStart s = t0) ∧
    (forall j a b, slots !! j = Some a -> slots !! S j = Some b -> slotStart b = slotEnd a).
Proof. exact (computeSlots_grid scenario_settings scenario_settings_valid). Defined.

(** The scenario of section 8 of the design: L1 08:00-08:45, L2 08:45-09:30,
    break 09:30-09:45, L3 09:45-10:30, L4 10:30-11:15. *)
Example computeSlots_scenario :
  (fun slots => map (fun s => (isBreak s, formatTime (slotStart s), formatTime (slotEnd s))) slots)
    <$> match computeSlots scenario_settings with Ok slots => Some slots | Throw _ => None end
  = Some [ (false, "08:00", "08:45"); (false, "08:45", "09:30"); (true, "09:30", "09:45");
           (false, "09:45", "10:30"); (false, "10:30", "11:15") ].
Proof. vm_compute. reflexivity. Qed.

Lemma delete_prunes_schedule_sample :
  (exists state',
      @appReducer spec_imports (present sample_history) (DELETE_TEACHER "t1")
        = Ok (Changed state') ∧
      (forall k l, schedule state' !! k = Some l <->
                   schedule (present sample_history) !! k = Some l ∧ teacherId l ≠ "t1") ∧
      (forall k l, schedule state' !! k = Some l -> teacherId l ≠ "t1") ∧
      "t1" ∉ map teacher_id (teachers state')) ∧
  (exists state',
      @appReducer spec_imports (present sample_history) (DELETE_CLASS "c1")
        = Ok (Changed state') ∧
      (forall k l, schedule state' !! k = Some l <->
                   schedule (present sample_history) !! k = Some l ∧
                   String.prefix ("c1" +:+ "_") k = false) ∧
      (forall k l, schedule state' !! k = Some l -> class_of_key k ≠ Some "c1") ∧
      "c1" ∉ map class_id (classes state')).
Proof.
  split.
  - exact (proj1 (@delete_prunes_schedule spec_imports (present sample_history) "t1")).
  - exact (proj2 (@delete_prunes_schedule spec_imports (present sample_history) "c1")).
Defined.

Lemma initData_never_throws_sample :
  exists h,
    initData (encode (@DEFAULT_STATE spec_imports)) (fun d p => Ok (deepMergeJson d p))
      (Ok (Some "{}")) (fun _ => Ok (JObj [("schedule", JObj [])])) = Ok h ∧
    present h = deepMergeJson (encode (@DEFAULT_STATE spec_imports))
                  (JObj [("schedule", JObj [])]) ∧
    has_shape (encode (@DEFAULT_STATE spec_imports)) (present h) = true.
Proof.
  destruct (@initData_never_throws spec_imports (Ok (Some "{}"))
              (fun _ => Ok (JObj [("schedule", JObj [])])))
    as (h & Hrun & _ & _ & Hshape & _ & Hmerged).
  exists h. split; [exact Hrun|]. split; [|exact Hshape].
  apply (Hmerged "{}").
  - reflexivity.
  - discriminate.
  - reflexivity.
Defined.

Lemma time_travel_keeps_timeline_sample :
  exists s',
    @dispatch_all spec_imports sample_history [UNDO; REDO; REDO; UNDO] = Ok s' ∧
    timeline s' = timeline sample_history ∧
    same_but_schedule (present s') (present sample_history).
Proof.
  apply (@time_travel_keeps_timeline spec_imports sample_history [UNDO; REDO; REDO; UNDO]).
  repeat constructor.
Defined.

Lemma redo_undo_round_trip_sample :
  exists s1,
    @reducer spec_imports undone_history REDO = Ok s1 ∧
    canUndo s1 = true ∧
    @reducer spec_imports s1 UNDO = Ok undone_history.
Proof.
  apply (@redo_undo_round_trip spec_imports undone_history). discriminate.
Defined.

Lemma undo_all_redo_all_sample :
  exists s'',
    @dispatch_all spec_imports edited_history (replicate (length two_edits) UNDO) = Ok s'' ∧
    past s'' = past blank_history ∧
    present s'' = present blank_history ∧
    (two_edits ≠ [] ->
     @dispatch_all spec_imports s'' (replicate (length two_edits) REDO) = Ok edited_history).
Proof.
  apply (@undo_all_redo_all spec_imports blank_history edited_history two_edits
           [∅; {["c1_0_0" := sample_lesson]}]).
  - refine (@recorded_cons spec_imports blank_history
             (SET_LESSON "c1_0_0" (Some sample_lesson))
             (with_schedule (present blank_history) {["c1_0_0" := sample_lesson]})
             (mkHistory [∅]
                (with_schedule (present blank_history) {["c1_0_0" := sample_lesson]}) [])
             [first_to_second] [{["c1_0_0" := sample_lesson]}]
             edited_history _ _ _ _);
      [reflexivity | vm_compute; reflexivity | vm_compute; reflexivity |].
    refine (@recorded_cons spec_imports
             (mkHistory [∅]
                (with_schedule (present blank_history) {["c1_0_0" := sample_lesson]}) [])
             first_to_second
             (with_schedule (present blank_history) {["c1_0_1" := sample_lesson]})
             edited_history [] [] edited_history _ _ _ _);
      [reflexivity | vm_compute; reflexivity | vm_compute; reflexivity |].
    apply (@recorded_nil spec_imports).
  - vm_compute. lia.
Defined.

Lemma undo_after_delete_teacher_sample :
  exists s',
    @dispatch_all spec_imports taught_history
      [DELETE_TEACHER (teacherId sample_lesson); UNDO] = Ok s' ∧
    schedule (present s') !! "c1_0_0" = Some sample_lesson ∧
    teacherId sample_lesson ∉ map teacher_id (teachers (present s')).
Proof.
  apply (@undo_after_delete_teacher spec_imports taught_history
           {["c1_0_0" := sample_lesson]} "c1_0_0" sample_lesson).
  - reflexivity.
  - vm_compute. reflexivity.
Defined.

Lemma move_lesson_round_trip_sample :
  exists p1,
    @appReducer spec_imports (present sample_history)
      (MOVE_LESSON "c1_0_0" "c1_0_1" (conj eq_refl eq_refl)) = Ok (Changed p1) ∧
    size (schedule p1) = size (schedule (present sample_history)) ∧
    @appReducer spec_imports p1 (MOVE_LESSON "c1_0_1" "c1_0_0" (conj eq_refl eq_refl))
      = Ok (Changed (present sample_history)).
Proof.
  apply (@move_lesson_round_trip spec_imports (present sample_history)
           "c1_0_0" "c1_0_1" sample_lesson (conj eq_refl eq_refl) (conj eq_refl eq_refl)).
  vm_compute. reflexivity.
Defined.

Lemma add_then_delete_sample :
  exists p1 p2,
    @appReducer spec_imports (present sample_history)
      (ADD_TEACHER (mkTeacher "t9" "Zahir" "#0ea5e9")) = Ok (Changed p1) ∧
    @appReducer spec_imports p1 (DELETE_TEACHER "t9") = Ok (Changed p2) ∧
    p2 = present sample_history.
Proof.
  apply (proj1 (@add_then_delete spec_imports (present sample_history))
           (mkTeacher "t9" "Zahir" "#0ea5e9")).
  - simpl. intros Hin.
    repeat (apply elem_of_cons in Hin as [Hin|Hin]; [discriminate|]).
    by apply elem_of_nil in Hin.
  - intros k l Hk.
    change (({["c1_0_0" := sample_lesson]} : Schedule) !! k = Some l) in Hk.
    apply lookup_singleton_Some in Hk as [_ <-]. discriminate.
Defined.

Lemma delete_class_takes_prefixed_sample :
  exists p1,
    @appReducer spec_imports nested_classes (DELETE_CLASS "c") = Ok (Changed p1) ∧
    mkClassGroup "c_2" "second" ∈ classes p1 ∧
    forall k, String.prefix ("c_2" +:+ "_") k = true -> schedule p1 !! k = None.
Proof.
  apply (@delete_class_takes_prefixed spec_imports nested_classes "c"
           (mkClassGroup "c_2" "second")).
  - reflexivity.
  - apply list_elem_of_further, list_elem_of_here.
Defined.

Lemma plain_mutation_schedule_sample :
  exists p1,
    @appReducer spec_imports (present sample_history) (DELETE_TEACHER "t1")
      = Ok (Changed p1) ∧
    schedule p1 ⊆ schedule (present sample_history) ∧
    ((forall id, DELETE_TEACHER "t1" ≠ DELETE_TEACHER id ∧
                 DELETE_TEACHER "t1" ≠ DELETE_CLASS id) ->
     schedule p1 = schedule (present sample_history)).
Proof.
  apply (@plain_mutation_schedule spec_imports (present sample_history)
           (DELETE_TEACHER "t1")).
  reflexivity.
Defined.

Lemma rgbToHex_round_trip_sample :
  String.length (Theme.rgbToHex 99 102 241) = 7 ∧
  Theme.hexToRgb (Theme.rgbToHex 99 102 241) = Some (Theme.mkRgb 99 102 241).
Proof. apply (rgbToHex_round_trip 99 102 241); lia. Defined.

Lemma hexToRgb_channels_sample :
  (0 <= 99 <= 255)%Z ∧ (0 <= 102 <= 255)%Z ∧ (0 <= 241 <= 255)%Z ∧
  Theme.hexToRgb (Theme.rgbToHex 99 102 241) = Some (Theme.mkRgb 99 102 241).
Proof.
  apply (hexToRgb_channels "6366F1" (Theme.mkRgb 99 102 241)).
  vm_compute. reflexivity.
Defined.

Lemma active_project_stays_listed_sample :
  Projects.active_listed
    (Projects.load sample_store [stored_b] (Some "B") (Projects.data stored_b)).
Proof.
  apply (@active_project_stays_listed spec_imports sample_env sample_store
           (Projects.load sample_store [stored_b] (Some "B") (Projects.data stored_b))
           (Projects.DELETE_PROJECT "A")).
  - intros a [= <-]. apply list_elem_of_here.
  - reflexivity.
  - vm_compute. reflexivity.
Defined.

Lemma switch_project_loads_stored_sample :
  exists s1 saved,
    @Projects.reducer spec_imports sample_env sample_store (Projects.SET_ACTIVE_PROJECT "B")
      = Ok s1 ∧
    Projects.activeProjectId s1 = Some "B" ∧
    Projects.currentData s1 = Projects.data stored_b ∧
    Projects.find_project "A" (Projects.projects s1) = Some saved ∧
    Projects.data saved = Projects.currentData sample_store ∧
    map Projects.id (Projects.projects s1) = map Projects.id (Projects.projects sample_store).
Proof.
  apply (@switch_project_loads_stored spec_imports sample_env sample_store "A" "B" stored_b).
  - reflexivity.
  - apply list_elem_of_here.
  - reflexivity.
Defined.

Lemma switch_project_round_trip_sample :
  exists s1 s2,
    @Projects.reducer spec_imports sample_env sample_store (Projects.SET_ACTIVE_PROJECT "B")
      = Ok s1 ∧
    @Projects.reducer spec_imports sample_env s1 (Projects.SET_ACTIVE_PROJECT "A") = Ok s2 ∧
    Projects.currentData s2 = Projects.currentData sample_store ∧
    Projects.activeProjectId s2 = Some "A".
Proof.
  apply (@switch_project_round_trip spec_imports sample_env sample_env sample_store "A" "B").
  - reflexivity.
  - apply list_elem_of_here.
  - apply list_elem_of_further, list_elem_of_here.
Defined.

Lemma create_project_drops_edits_sample :
  exists s1 s2 created,
    @Projects.reducer spec_imports sample_env sample_store
      (Projects.CREATE_PROJECT "third" None) = Ok s1 ∧
    Projects.projects s1 = Projects.projects sample_store ++ [created] ∧
    Projects.id created = "N" ∧ Projects.activeProjectId s1 = Some "N" ∧
    @Projects.reducer spec_imports sample_env s1 (Projects.SET_ACTIVE_PROJECT "A") = Ok s2 ∧
    Projects.currentData s2 = Projects.data stored_a.
Proof.
  apply (@create_project_drops_edits spec_imports sample_env sample_env sample_store
           "A" "N" stored_a "third" None); reflexivity.
Defined.
